(** * LA_avdecc controller facade: status enums, their fold operators,
      and the transaction discipline of the controller engine.

    Sources embedded here:
    - [include/la/avdecc/internals/controllerEntity.hpp]
      ([ControllerEntity::AemCommandStatus], [AaCommandStatus],
      [MvuCommandStatus], [ControlStatus], the command methods and the
      operator overloads that follow the class);
    - [src/protocolInterface/protocolInterface.hpp]
      ([ProtocolInterface::Error], [operator!], [operator|=], [lock]/[unlock]). *)

From Stdlib Require Import ZArith Lia Bool.
From stdpp Require Import base decidable option list strings gmap.

(** ** Operator overloads as type classes

    C++ resolves [operator!], [operator|] and [operator|=] by the static type
    of the operands; each overload below is one instance. *)

Class OperatorNot (T : Type) := operator_not : T -> bool.
Class OperatorOr (T : Type) := operator_or : T -> T -> T.
(** [operator|=] taking [T&]: the result is the value stored in [lhs]
    afterwards (the returned reference designates that same object). *)
Class OperatorOrAssign (T : Type) := operator_or_assign : T -> T -> T.
(** An enumeration with a fixed underlying integer type. *)
Class Underlying (T : Type) := to_underlying : T -> Z.

Notation "'!' s" := (operator_not s) (at level 35, right associativity, only parsing).

(** ** [ControllerEntity] status enumerations (all [: std::uint16_t])

    The headers never cast an integer to one of these four enums, so a status
    is one of the declared enumerators; [value] gives the integer the
    enumerator is declared with. *)

Module ControllerEntity.

(** Which block of the enum an enumerator is declared in: under the comment
    [// AVDECC Protocol Error Codes] (or [// Milan Vendor Unique Protocol
    Error Codes]) or under [// Library Error Codes]. *)
Inductive CodeOrigin : Set := ProtocolCode | LibraryCode.

#[global] Instance CodeOrigin_eq_dec : EqDecision CodeOrigin.
Proof. solve_decision. Defined.

Module AemCommandStatus.
Inductive t : Set :=
| Success | NotImplemented | NoSuchDescriptor | LockedByOther | AcquiredByOther
| NotAuthenticated | AuthenticationDisabled | BadArguments | NoResources
| InProgress | EntityMisbehaving | NotSupported | StreamIsRunning
| NetworkError | ProtocolError | TimedOut | UnknownEntity | InternalError.

Definition value (s : t) : Z :=
  match s with
  | Success => 0 | NotImplemented => 1 | NoSuchDescriptor => 2
  | LockedByOther => 3 | AcquiredByOther => 4 | NotAuthenticated => 5
  | AuthenticationDisabled => 6 | BadArguments => 7 | NoResources => 8
  | InProgress => 9 | EntityMisbehaving => 10 | NotSupported => 11
  | StreamIsRunning => 12
  | NetworkError => 995 | ProtocolError => 996 | TimedOut => 997
  | UnknownEntity => 998 | InternalError => 999
  end%Z.

Definition origin (s : t) : CodeOrigin :=
  match s with
  | NetworkError | ProtocolError | TimedOut | UnknownEntity | InternalError => LibraryCode
  | _ => ProtocolCode
  end.

Definition enumerators : list t :=
  [Success; NotImplemented; NoSuchDescriptor; LockedByOther; AcquiredByOther;
   NotAuthenticated; AuthenticationDisabled; BadArguments; NoResources;
   InProgress; EntityMisbehaving; NotSupported; StreamIsRunning;
   NetworkError; ProtocolError; TimedOut; UnknownEntity; InternalError].
End AemCommandStatus.

Module AaCommandStatus.
Inductive t : Set :=
| Success | NotImplemented | AddressTooLow | AddressTooHigh | AddressInvalid
| TlvInvalid | DataInvalid | Unsupported
| Aborted | NetworkError | ProtocolError | TimedOut | UnknownEntity | InternalError.

Definition value (s : t) : Z :=
  match s with
  | Success => 0 | NotImplemented => 1 | AddressTooLow => 2
  | AddressTooHigh => 3 | AddressInvalid => 4 | TlvInvalid => 5
  | DataInvalid => 6 | Unsupported => 7
  | Aborted => 994
  | NetworkError => 995 | ProtocolError => 996 | TimedOut => 997
  | UnknownEntity => 998 | InternalError => 999
  end%Z.

Definition origin (s : t) : CodeOrigin :=
  match s with
  | Aborted | NetworkError | ProtocolError | TimedOut | UnknownEntity | InternalError => LibraryCode
  | _ => ProtocolCode
  end.

Definition enumerators : list t :=
  [Success; NotImplemented; AddressTooLow; AddressTooHigh; AddressInvalid;
   TlvInvalid; DataInvalid; Unsupported;
   Aborted; NetworkError; ProtocolError; TimedOut; UnknownEntity; InternalError].
End AaCommandStatus.

Module MvuCommandStatus.
Inductive t : Set :=
| Success | NotImplemented | BadArguments
| NetworkError | ProtocolError | TimedOut | UnknownEntity | InternalError.

Definition value (s : t) : Z :=
  match s with
  | Success => 0 | NotImplemented => 1 | BadArguments => 2
  | NetworkError => 995 | ProtocolError => 996 | TimedOut => 997
  | UnknownEntity => 998 | InternalError => 999
  end%Z.

Definition origin (s : t) : CodeOrigin :=
  match s with
  | NetworkError | ProtocolError | TimedOut | UnknownEntity | InternalError => LibraryCode
  | _ => ProtocolCode
  end.

Definition enumerators : list t :=
  [Success; NotImplemented; BadArguments;
   NetworkError; ProtocolError; TimedOut; UnknownEntity; InternalError].
End MvuCommandStatus.

Module ControlStatus.
Inductive t : Set :=
| Success | ListenerUnknownID | TalkerUnknownID | TalkerDestMacFail
| TalkerNoStreamIndex | TalkerNoBandwidth | TalkerExclusive
| ListenerTalkerTimeout | ListenerExclusive | StateUnavailable | NotConnected
| NoSuchConnection | CouldNotSendMessage | TalkerMisbehaving
| ListenerMisbehaving
| ControllerNotAuthorized | IncompatibleRequest
| NotSupported
| NetworkError | ProtocolError | TimedOut | UnknownEntity | InternalError.

Definition value (s : t) : Z :=
  match s with
  | Success => 0 | ListenerUnknownID => 1 | TalkerUnknownID => 2
  | TalkerDestMacFail => 3 | TalkerNoStreamIndex => 4 | TalkerNoBandwidth => 5
  | TalkerExclusive => 6 | ListenerTalkerTimeout => 7 | ListenerExclusive => 8
  | StateUnavailable => 9 | NotConnected => 10 | NoSuchConnection => 11
  | CouldNotSendMessage => 12 | TalkerMisbehaving => 13
  | ListenerMisbehaving => 14
  | ControllerNotAuthorized => 16 | IncompatibleRequest => 17
  | NotSupported => 31
  | NetworkError => 995 | ProtocolError => 996 | TimedOut => 997
  | UnknownEntity => 998 | InternalError => 999
  end%Z.

Definition origin (s : t) : CodeOrigin :=
  match s with
  | NetworkError | ProtocolError | TimedOut | UnknownEntity | InternalError => LibraryCode
  | _ => ProtocolCode
  end.

Definition enumerators : list t :=
  [Success; ListenerUnknownID; TalkerUnknownID; TalkerDestMacFail;
   TalkerNoStreamIndex; TalkerNoBandwidth; TalkerExclusive;
   ListenerTalkerTimeout; ListenerExclusive; StateUnavailable; NotConnected;
   NoSuchConnection; CouldNotSendMessage; TalkerMisbehaving;
   ListenerMisbehaving; ControllerNotAuthorized; IncompatibleRequest;
   NotSupported;
   NetworkError; ProtocolError; TimedOut; UnknownEntity; InternalError].
End ControlStatus.

#[global] Instance AemCommandStatus_eq_dec : EqDecision AemCommandStatus.t.
Proof. solve_decision. Defined.
#[global] Instance AaCommandStatus_eq_dec : EqDecision AaCommandStatus.t.
Proof. solve_decision. Defined.
#[global] Instance MvuCommandStatus_eq_dec : EqDecision MvuCommandStatus.t.
Proof. solve_decision. Defined.
#[global] Instance ControlStatus_eq_dec : EqDecision ControlStatus.t.
Proof. solve_decision. Defined.

(** A status of any of the four command status enums, with the value and the
    block of its enumerator. *)
Inductive CommandStatus : Set :=
| OfAem (s : AemCommandStatus.t)
| OfAa (s : AaCommandStatus.t)
| OfMvu (s : MvuCommandStatus.t)
| OfControl (s : ControlStatus.t).

Definition CommandStatus_value (x : CommandStatus) : Z :=
  match x with
  | OfAem s => AemCommandStatus.value s
  | OfAa s => AaCommandStatus.value s
  | OfMvu s => MvuCommandStatus.value s
  | OfControl s => ControlStatus.value s
  end.

Definition CommandStatus_origin (x : CommandStatus) : CodeOrigin :=
  match x with
  | OfAem s => AemCommandStatus.origin s
  | OfAa s => AaCommandStatus.origin s
  | OfMvu s => MvuCommandStatus.origin s
  | OfControl s => ControlStatus.origin s
  end.

#[global] Instance AemCommandStatus_underlying : Underlying AemCommandStatus.t := AemCommandStatus.value.
#[global] Instance AaCommandStatus_underlying : Underlying AaCommandStatus.t := AaCommandStatus.value.
#[global] Instance MvuCommandStatus_underlying : Underlying MvuCommandStatus.t := MvuCommandStatus.value.
#[global] Instance ControlStatus_underlying : Underlying ControlStatus.t := ControlStatus.value.

(** *** Operator overloads (controllerEntity.hpp, after the class)

    Comparison of two values of a scoped enumeration compares their
    underlying integers.  In [if (!!lhs)] the inner [!] is the overload and
    the outer one is the built-in negation of [bool]. *)

(** [constexpr bool operator!(AemCommandStatus const status)] *)
#[global] Instance AemCommandStatus_not : OperatorNot AemCommandStatus.t :=
  fun status => negb (to_underlying status =? to_underlying AemCommandStatus.Success)%Z.
(** [constexpr AemCommandStatus operator|(AemCommandStatus const lhs, AemCommandStatus const rhs)] *)
#[global] Instance AemCommandStatus_or : OperatorOr AemCommandStatus.t :=
  fun lhs rhs => if negb (! lhs) then rhs else lhs.
(** [constexpr AemCommandStatus& operator|=(AemCommandStatus& lhs, AemCommandStatus const rhs)] *)
#[global] Instance AemCommandStatus_or_assign : OperatorOrAssign AemCommandStatus.t :=
  fun lhs rhs => let lhs' := if negb (! lhs) then rhs else lhs in lhs'.

(** [constexpr bool operator!(AaCommandStatus const status)] *)
#[global] Instance AaCommandStatus_not : OperatorNot AaCommandStatus.t :=
  fun status => negb (to_underlying status =? to_underlying AaCommandStatus.Success)%Z.
(** [constexpr AaCommandStatus operator|(AaCommandStatus const lhs, AaCommandStatus const rhs)] *)
#[global] Instance AaCommandStatus_or : OperatorOr AaCommandStatus.t :=
  fun lhs rhs => if negb (! lhs) then rhs else lhs.
(** [constexpr AaCommandStatus& operator|=(AaCommandStatus& lhs, AaCommandStatus const rhs)] *)
#[global] Instance AaCommandStatus_or_assign : OperatorOrAssign AaCommandStatus.t :=
  fun lhs rhs => let lhs' := if negb (! lhs) then rhs else lhs in lhs'.

(** [constexpr bool operator!(MvuCommandStatus const status)] *)
#[global] Instance MvuCommandStatus_not : OperatorNot MvuCommandStatus.t :=
  fun status => negb (to_underlying status =? to_underlying MvuCommandStatus.Success)%Z.
(** [constexpr MvuCommandStatus operator|(MvuCommandStatus const lhs, MvuCommandStatus const rhs)] *)
#[global] Instance MvuCommandStatus_or : OperatorOr MvuCommandStatus.t :=
  fun lhs rhs => if negb (! lhs) then rhs else lhs.
(** [constexpr MvuCommandStatus& operator|=(MvuCommandStatus& lhs, MvuCommandStatus const rhs)] *)
#[global] Instance MvuCommandStatus_or_assign : OperatorOrAssign MvuCommandStatus.t :=
  fun lhs rhs => let lhs' := if negb (! lhs) then rhs else lhs in lhs'.

(** [constexpr bool operator!(ControlStatus const status)] *)
#[global] Instance ControlStatus_not : OperatorNot ControlStatus.t :=
  fun status => negb (to_underlying status =? to_underlying ControlStatus.Success)%Z.
(** [constexpr ControlStatus& operator|=(ControlStatus& lhs, ControlStatus const rhs)]:
    the value this overload stores in [lhs].  It is not an instance of
    [OperatorOrAssign]: with the by-value overload declared next to it, the
    expression [status |= s] on a non-const [ControlStatus] lvalue has two
    equally good candidates and does not compile, so no statement sequence
    [status |= s1; status |= s2] reaches this function. *)
Definition ControlStatus_or_assign_ref (lhs rhs : ControlStatus.t) : ControlStatus.t :=
  let lhs' := if negb (! lhs) then rhs else lhs in lhs'.
(** [constexpr ControlStatus operator|=(ControlStatus const lhs, ControlStatus const rhs)]:
    the overload that takes [lhs] by value and returns the folded value.
    [ControlStatus] has no [operator|]. *)
Definition ControlStatus_or_assign_value (lhs rhs : ControlStatus.t) : ControlStatus.t :=
  if negb (! lhs) then rhs else lhs.

End ControllerEntity.

(** ** [ProtocolInterface::Error]

    [enum class Error] names no underlying type, so it is [int].  An object of
    the enumeration holds an [int]; [operator|=] below stores values that no
    enumerator names, so an [Error] is modelled by the integer it holds and
    the enumerators are the named constants among them. *)

Module ProtocolInterface.

Module Error.
Inductive enumerator : Set :=
| NoError_ | TransportError_ | Timeout_ | UnknownRemoteEntity_
| UnknownLocalEntity_ | InvalidEntityType_ | DuplicateLocalEntityID_
| InterfaceNotFound_ | InterfaceInvalid_ | InterfaceNotSupported_
| MessageNotSupported_ | InternalError_.

Definition value (e : enumerator) : Z :=
  match e with
  | NoError_ => 0 | TransportError_ => 1 | Timeout_ => 2
  | UnknownRemoteEntity_ => 3 | UnknownLocalEntity_ => 4
  | InvalidEntityType_ => 5 | DuplicateLocalEntityID_ => 6
  | InterfaceNotFound_ => 7 | InterfaceInvalid_ => 8
  | InterfaceNotSupported_ => 9 | MessageNotSupported_ => 10
  | InternalError_ => 99
  end%Z.

Definition enumerators : list enumerator :=
  [NoError_; TransportError_; Timeout_; UnknownRemoteEntity_;
   UnknownLocalEntity_; InvalidEntityType_; DuplicateLocalEntityID_;
   InterfaceNotFound_; InterfaceInvalid_; InterfaceNotSupported_;
   MessageNotSupported_; InternalError_].

(** The value held by an object of type [Error]. *)
Record t : Set := from_underlying { underlying : Z }.

Definition enum (e : enumerator) : t := from_underlying (value e).

Definition NoError := enum NoError_.
Definition TransportError := enum TransportError_.
Definition Timeout := enum Timeout_.
Definition UnknownRemoteEntity := enum UnknownRemoteEntity_.
Definition UnknownLocalEntity := enum UnknownLocalEntity_.
Definition InvalidEntityType := enum InvalidEntityType_.
Definition DuplicateLocalEntityID := enum DuplicateLocalEntityID_.
Definition InterfaceNotFound := enum InterfaceNotFound_.
Definition InterfaceInvalid := enum InterfaceInvalid_.
Definition InterfaceNotSupported := enum InterfaceNotSupported_.
Definition MessageNotSupported := enum MessageNotSupported_.
Definition InternalError := enum InternalError_.

(** Whether an [Error] value is one of the declared enumerators. *)
Definition named (e : t) : bool :=
  bool_decide (underlying e ∈ value <$> enumerators).
End Error.

#[global] Instance Error_enumerator_eq_dec : EqDecision Error.enumerator.
Proof. solve_decision. Defined.
#[global] Instance Error_eq_dec : EqDecision Error.t.
Proof. solve_decision. Defined.
#[global] Instance Error_underlying : Underlying Error.t := Error.underlying.

(** [constexpr bool operator!(ProtocolInterface::Error const error)]:
    [return error == ProtocolInterface::Error::NoError;] *)
#[global] Instance Error_not : OperatorNot Error.t :=
  fun error => (to_underlying error =? to_underlying Error.NoError)%Z.

(** [constexpr Error& operator|=(Error& lhs, Error const rhs)]:
    [lhs = static_cast<Error>(underlying(lhs) | underlying(rhs))].
    The bitwise or of two [int]s is an [int]: nothing wraps. *)
#[global] Instance Error_or_assign : OperatorOrAssign Error.t :=
  fun lhs rhs =>
    let lhs' := Error.from_underlying (Z.lor (to_underlying lhs) (to_underlying rhs)) in lhs'.

End ProtocolInterface.

(** ** The AECP transaction engine

    The headers declare the facade only; the engine that serializes commands
    per target entity is compiled from sources that are not among the two
    headers.  The definitions of this module follow the specification of the
    engine (per-target state, issue steps, match, failure semantics).  Time is
    abstracted: a deadline that passes is the event [Timeout], and the bytes of
    the request frame are reduced to the fields the engine matches on. *)

Module Engine.

(** [UniqueIdentifier] is a 64-bit EUI; handlers are told apart by a tag. *)
Abbreviation UniqueIdentifier := Z (only parsing).
Abbreviation HandlerId := nat (only parsing).

(** [sequence_id : u16], assigned modulo 2^16. *)
Definition u16 (z : Z) : Z := (z mod 65536)%Z.

Inductive AecpKind : Set := Aem | Aa | Mvu.

#[global] Instance AecpKind_eq_dec : EqDecision AecpKind.
Proof. solve_decision. Defined.

(** Modelled from the spec: the library statuses a transaction can end in
    ("NetworkError, ProtocolError, TimedOut, UnknownEntity, InternalError"). *)
Inductive LibraryStatus : Set :=
| NetworkError | ProtocolError | TimedOut | UnknownEntity | InternalError.

(** Modelled from the spec: the transaction outcome a completion handler
    receives, the status field of the matched response or a library status. *)
Inductive Outcome : Set :=
| Responded (status : Z)
| Failed (status : LibraryStatus).

(** Modelled from the spec: a typed call issued through the facade, before
    it is transmitted: its dialect and its completion handler. *)
Record Command : Set := mkCommand {
  cmd_kind : AecpKind;
  cmd_completion_handler : HandlerId
}.

(** Modelled from the spec: the in-flight [Transaction] record of the AECP
    engine, [{target, sequence_id, request_frame, deadline,
    attempts_remaining, completion_handler, kind}], without the frame bytes
    and the deadline. *)
Record Transaction : Set := mkTransaction {
  tx_target : UniqueIdentifier;
  tx_sequence_id : Z;
  tx_attempts_remaining : nat;
  tx_command : Command
}.

(** Modelled from the spec: the per-target state of the AECP engine,
    [next_sequence_id: u16], [inflight: map<sequence_id, Transaction>],
    [serialization_queue: fifo]. *)
Record TargetState : Set := mkTargetState {
  next_sequence_id : Z;
  inflight : gmap Z Transaction;
  serialization_queue : list Command
}.

(** Modelled from the spec: an AECP command frame put on the wire, reduced to
    target_entity_id, sequence_id and message type. *)
Record Frame : Set := mkFrame {
  frame_target : UniqueIdentifier;
  frame_sequence_id : Z;
  frame_kind : AecpKind
}.

(** Modelled from the spec: the state the AECP engine owns (the discovery
    table reduced to the set of online entities, the per-target transaction
    tables, the usability of the transport), with the frames transmitted and
    the handler invocations made so far, oldest first. *)
Record t : Type := mkEngine {
  discovery : gset Z;
  targets : gmap Z TargetState;
  transport_up : bool;
  wire : list Frame;
  completions : list (HandlerId * Outcome)
}.

Definition initial : t :=
  {| discovery := ∅; targets := ∅; transport_up := true; wire := []; completions := [] |}.

Definition fresh_target : TargetState :=
  {| next_sequence_id := 0; inflight := ∅; serialization_queue := [] |}.

Definition target_state (e : t) (target : UniqueIdentifier) : TargetState :=
  default fresh_target (targets e !! target).

Definition set_target (target : UniqueIdentifier) (ts : TargetState) (e : t) : t :=
  {| discovery := discovery e; targets := <[target := ts]> (targets e);
     transport_up := transport_up e; wire := wire e; completions := completions e |}.

Definition transmit (f : Frame) (e : t) : t :=
  {| discovery := discovery e; targets := targets e;
     transport_up := transport_up e; wire := wire e ++ [f]; completions := completions e |}.

Definition complete (done : list (HandlerId * Outcome)) (e : t) : t :=
  {| discovery := discovery e; targets := targets e;
     transport_up := transport_up e; wire := wire e; completions := completions e ++ done |}.

Definition fail_with (s : LibraryStatus) (c : Command) : HandlerId * Outcome :=
  (cmd_completion_handler c, Failed s).

(** Modelled from the spec: the commands pending for a target, in issue
    order: the in-flight ones, then the queue. *)
Definition pending (ts : TargetState) : list Command :=
  (tx_command <$> (map_to_list (inflight ts)).*2) ++ serialization_queue ts.

(** Modelled from the spec: issue step 2, "allocate sequence_id =
    post-increment of next_sequence_id, skipping any id currently in-flight".
    Among [size busy + 1] consecutive ids one is free, so [size busy] skips
    are enough. *)
Fixpoint skip_inflight (fuel : nat) (busy : gmap Z Transaction) (id : Z) : Z :=
  match fuel with
  | O => id
  | S fuel' =>
      if decide (is_Some (busy !! id)) then skip_inflight fuel' busy (u16 (id + 1)) else id
  end.

Definition allocate_sequence_id (ts : TargetState) : Z :=
  skip_inflight (size (inflight ts)) (inflight ts) (next_sequence_id ts).

(** Modelled from the spec: the serialization discipline of the AECP engine
    ("at-most-one in-flight command per target entity; additional commands
    are queued FIFO behind the in-flight one") together with issue steps 2-5.
    When nothing is in flight for [target], the head of its queue is
    transmitted and registered with one retry left; if the transport is
    unusable the queued commands fail with [NetworkError]. *)
Definition pump (target : UniqueIdentifier) (e : t) : t :=
  let ts := target_state e target in
  if decide (inflight ts = ∅) then
    match serialization_queue ts with
    | [] => e
    | c :: q =>
        if transport_up e then
          let id := allocate_sequence_id ts in
          let tx := {| tx_target := target; tx_sequence_id := id;
                       tx_attempts_remaining := 1; tx_command := c |} in
          set_target target
            {| next_sequence_id := u16 (id + 1);
               inflight := <[id := tx]> (inflight ts);
               serialization_queue := q |}
            (transmit {| frame_target := target; frame_sequence_id := id;
                         frame_kind := cmd_kind c |} e)
        else
          set_target target
            {| next_sequence_id := next_sequence_id ts;
               inflight := inflight ts;
               serialization_queue := [] |}
            (complete (fail_with NetworkError <$> (c :: q)) e)
    end
  else e.

(** Modelled from the spec: the issue operation of the AECP engine.  Step 1:
    a target absent from the discovery table fails synchronously with
    [UnknownEntity]; otherwise the command joins the tail of the target's
    FIFO and the queue is pumped. *)
Definition issue (target : UniqueIdentifier) (c : Command) (e : t) : t :=
  if decide (target ∈ discovery e) then
    let ts := target_state e target in
    pump target
      (set_target target
         {| next_sequence_id := next_sequence_id ts;
            inflight := inflight ts;
            serialization_queue := serialization_queue ts ++ [c] |} e)
  else complete [fail_with UnknownEntity c] e.

(** Modelled from the spec: the end of a transaction's lifecycle.  The
    in-flight transaction [id] of [target] is destroyed, [result] goes to its
    completion handler and the next queued command is started. *)
Definition finish (target : UniqueIdentifier) (id : Z) (tx : Transaction)
    (result : Outcome) (e : t) : t :=
  let ts := target_state e target in
  pump target
    (set_target target
       {| next_sequence_id := next_sequence_id ts;
          inflight := delete id (inflight ts);
          serialization_queue := serialization_queue ts |}
       (complete [(cmd_completion_handler (tx_command tx), result)] e)).

(** Modelled from the spec: the match step of the AECP engine.  A response
    completes the transaction with the same target, sequence_id and command
    subtype; a response that matches nothing completes nothing. *)
Definition on_response (target : UniqueIdentifier) (id : Z) (kind : AecpKind)
    (status : Z) (e : t) : t :=
  match inflight (target_state e target) !! id with
  | Some tx =>
      if decide (cmd_kind (tx_command tx) = kind)
      then finish target id tx (Responded status) e
      else e
  | None => e
  end.

(** Modelled from the spec: "malformed response -> ProtocolError". *)
Definition on_malformed_response (target : UniqueIdentifier) (id : Z) (e : t) : t :=
  match inflight (target_state e target) !! id with
  | Some tx => finish target id tx (Failed ProtocolError) e
  | None => e
  end.

(** Modelled from the spec: the deadline of an in-flight command passes.
    "One retry on timeout (total two attempts); on second timeout, fail with
    TimedOut"; the retry re-transmits the same PDU with the same sequence_id. *)
Definition on_timeout (target : UniqueIdentifier) (id : Z) (e : t) : t :=
  let ts := target_state e target in
  match inflight ts !! id with
  | Some tx =>
      match tx_attempts_remaining tx with
      | S n =>
          set_target target
            {| next_sequence_id := next_sequence_id ts;
               inflight := <[id := {| tx_target := tx_target tx;
                                      tx_sequence_id := tx_sequence_id tx;
                                      tx_attempts_remaining := n;
                                      tx_command := tx_command tx |}]> (inflight ts);
               serialization_queue := serialization_queue ts |}
            (transmit {| frame_target := target; frame_sequence_id := id;
                         frame_kind := cmd_kind (tx_command tx) |} e)
      | O => finish target id tx (Failed TimedOut) e
      end
  | None => e
  end.

(** Modelled from the spec: ADP AVAILABLE for an entity. *)
Definition on_entity_online (target : UniqueIdentifier) (e : t) : t :=
  {| discovery := {[target]} ∪ discovery e; targets := targets e;
     transport_up := transport_up e; wire := wire e; completions := completions e |}.

(** Modelled from the spec: "target going offline while transactions pend ->
    all pending for that target complete with UnknownEntity" (in issue
    order), and the target leaves the discovery table. *)
Definition on_entity_offline (target : UniqueIdentifier) (e : t) : t :=
  {| discovery := discovery e ∖ {[target]};
     targets := delete target (targets e);
     transport_up := transport_up e; wire := wire e;
     completions :=
       completions e ++ (fail_with UnknownEntity <$> pending (target_state e target)) |}.

(** Modelled from the spec: every pending transaction of every target
    completes with the library status [s]. *)
Definition cancel_all (s : LibraryStatus) (e : t) : t :=
  {| discovery := discovery e;
     targets :=
       (fun ts => {| next_sequence_id := next_sequence_id ts; inflight := ∅;
                     serialization_queue := [] |}) <$> targets e;
     transport_up := transport_up e; wire := wire e;
     completions :=
       completions e ++
       (fail_with s <$> concat (pending <$> (map_to_list (targets e)).*2)) |}.

(** Modelled from the spec: "transport fatal -> every pending transaction
    completes with NetworkError", and the interface is unusable from then on. *)
Definition on_transport_error (e : t) : t :=
  let e' := cancel_all NetworkError e in
  {| discovery := discovery e'; targets := targets e'; transport_up := false;
     wire := wire e'; completions := completions e' |}.

(** Modelled from the spec: "engine shutdown cancels every pending
    transaction with InternalError". *)
Definition shutdown (e : t) : t := cancel_all InternalError e.

(** Modelled from the spec: what can happen to the engine, a facade call
    ([Issue], [Shutdown]) or an event of the inbound and timer workers.  One
    event is handled at a time (the per-target mutex of the engine). *)
Inductive Event : Set :=
| Issue (target : UniqueIdentifier) (c : Command)
| Response (target : UniqueIdentifier) (id : Z) (kind : AecpKind) (status : Z)
| MalformedResponse (target : UniqueIdentifier) (id : Z)
| Timeout (target : UniqueIdentifier) (id : Z)
| EntityOnline (target : UniqueIdentifier)
| EntityOffline (target : UniqueIdentifier)
| TransportError
| Shutdown.

Definition step (e : t) (ev : Event) : t :=
  match ev with
  | Issue target c => issue target c e
  | Response target id kind status => on_response target id kind status e
  | MalformedResponse target id => on_malformed_response target id e
  | Timeout target id => on_timeout target id e
  | EntityOnline target => on_entity_online target e
  | EntityOffline target => on_entity_offline target e
  | TransportError => on_transport_error e
  | Shutdown => shutdown e
  end.

Definition run (trace : list Event) (e : t) : t := fold_left step trace e.

(** Modelled from the spec: "the count of in-flight AEM transactions to T",
    for any dialect [kind]. *)
Definition inflight_count (kind : AecpKind) (target : UniqueIdentifier) (e : t) : nat :=
  size (filter (fun p => cmd_kind (tx_command p.2) = kind) (inflight (target_state e target))).

(** Modelled from the spec: what every state the engine reaches satisfies.
    A target has at most one transaction in flight, and only entities of the
    discovery table have transaction state. *)
Definition serialized (e : t) : Prop :=
  (forall target, size (inflight (target_state e target)) <= 1) /\
  (forall target, target ∉ discovery e -> targets e !! target = None).

End Engine.

(** ** The command methods of the facade

    [ControllerEntity] declares one pure virtual method per AEM, AA, MVU and
    ACMP command, each handing its result to a [std::function] handler.  The
    two tables transcribe those declarations: a method's protocol is the
    section comment it stands under, and a handler's status is the type of
    the [status] parameter of its [using] alias. *)

Module Facade.

Local Open Scope string_scope.

Inductive Protocol : Set := AEM | AA | MVU | ACMP.

Inductive StatusEnum : Set :=
| AemCommandStatus_t | AaCommandStatus_t | MvuCommandStatus_t | ControlStatus_t.

Inductive ReturnType : Set := Void | NonVoid.

#[global] Instance Protocol_eq_dec : EqDecision Protocol.
Proof. solve_decision. Defined.
#[global] Instance StatusEnum_eq_dec : EqDecision StatusEnum.
Proof. solve_decision. Defined.
#[global] Instance ReturnType_eq_dec : EqDecision ReturnType.
Proof. solve_decision. Defined.

(** [using <name> = std::function<void(..., <status enum> const status, ...)>] *)
Record HandlerDecl : Set := mkHandler {
  handler_name : string;
  handler_status : StatusEnum
}.

(** [virtual <return> <name>(..., <handler> const& handler) const [noexcept] = 0;] *)
Record MethodDecl : Set := mkMethod {
  method_name : string;
  method_protocol : Protocol;
  method_return : ReturnType;
  method_noexcept : bool;
  method_handler : string
}.

(** "Status code returned by all AEM (AECP) command methods", "... all AA
    (AECP) command methods", "... all MVU (AECP) command methods", "... all
    ACMP control methods": the doc comments of the four enums. *)
Definition status_enum_of (p : Protocol) : StatusEnum :=
  match p with
  | AEM => AemCommandStatus_t
  | AA => AaCommandStatus_t
  | MVU => MvuCommandStatus_t
  | ACMP => ControlStatus_t
  end.

Definition handlers : list HandlerDecl :=
  [mkHandler "AcquireEntityHandler" AemCommandStatus_t;
   mkHandler "ReleaseEntityHandler" AemCommandStatus_t;
   mkHandler "LockEntityHandler" AemCommandStatus_t;
   mkHandler "UnlockEntityHandler" AemCommandStatus_t;
   mkHandler "QueryEntityAvailableHandler" AemCommandStatus_t;
   mkHandler "QueryControllerAvailableHandler" AemCommandStatus_t;
   mkHandler "RegisterUnsolicitedNotificationsHandler" AemCommandStatus_t;
   mkHandler "UnregisterUnsolicitedNotificationsHandler" AemCommandStatus_t;
   mkHandler "EntityDescriptorHandler" AemCommandStatus_t;
   mkHandler "ConfigurationDescriptorHandler" AemCommandStatus_t;
   mkHandler "AudioUnitDescriptorHandler" AemCommandStatus_t;
   mkHandler "StreamInputDescriptorHandler" AemCommandStatus_t;
   mkHandler "StreamOutputDescriptorHandler" AemCommandStatus_t;
   mkHandler "JackInputDescriptorHandler" AemCommandStatus_t;
   mkHandler "JackOutputDescriptorHandler" AemCommandStatus_t;
   mkHandler "AvbInterfaceDescriptorHandler" AemCommandStatus_t;
   mkHandler "ClockSourceDescriptorHandler" AemCommandStatus_t;
   mkHandler "MemoryObjectDescriptorHandler" AemCommandStatus_t;
   mkHandler "LocaleDescriptorHandler" AemCommandStatus_t;
   mkHandler "StringsDescriptorHandler" AemCommandStatus_t;
   mkHandler "StreamPortInputDescriptorHandler" AemCommandStatus_t;
   mkHandler "StreamPortOutputDescriptorHandler" AemCommandStatus_t;
   mkHandler "ExternalPortInputDescriptorHandler" AemCommandStatus_t;
   mkHandler "ExternalPortOutputDescriptorHandler" AemCommandStatus_t;
   mkHandler "InternalPortInputDescriptorHandler" AemCommandStatus_t;
   mkHandler "InternalPortOutputDescriptorHandler" AemCommandStatus_t;
   mkHandler "AudioClusterDescriptorHandler" AemCommandStatus_t;
   mkHandler "AudioMapDescriptorHandler" AemCommandStatus_t;
   mkHandler "ClockDomainDescriptorHandler" AemCommandStatus_t;
   mkHandler "SetConfigurationHandler" AemCommandStatus_t;
   mkHandler "SetStreamInputFormatHandler" AemCommandStatus_t;
   mkHandler "GetStreamInputFormatHandler" AemCommandStatus_t;
   mkHandler "SetStreamOutputFormatHandler" AemCommandStatus_t;
   mkHandler "GetStreamOutputFormatHandler" AemCommandStatus_t;
   mkHandler "GetStreamPortInputAudioMapHandler" AemCommandStatus_t;
   mkHandler "GetStreamPortOutputAudioMapHandler" AemCommandStatus_t;
   mkHandler "AddStreamPortInputAudioMappingsHandler" AemCommandStatus_t;
   mkHandler "AddStreamPortOutputAudioMappingsHandler" AemCommandStatus_t;
   mkHandler "RemoveStreamPortInputAudioMappingsHandler" AemCommandStatus_t;
   mkHandler "RemoveStreamPortOutputAudioMappingsHandler" AemCommandStatus_t;
   mkHandler "GetStreamInputInfoHandler" AemCommandStatus_t;
   mkHandler "GetStreamOutputInfoHandler" AemCommandStatus_t;
   mkHandler "SetEntityNameHandler" AemCommandStatus_t;
   mkHandler "GetEntityNameHandler" AemCommandStatus_t;
   mkHandler "SetEntityGroupNameHandler" AemCommandStatus_t;
   mkHandler "GetEntityGroupNameHandler" AemCommandStatus_t;
   mkHandler "SetConfigurationNameHandler" AemCommandStatus_t;
   mkHandler "GetConfigurationNameHandler" AemCommandStatus_t;
   mkHandler "SetAudioUnitNameHandler" AemCommandStatus_t;
   mkHandler "GetAudioUnitNameHandler" AemCommandStatus_t;
   mkHandler "SetStreamInputNameHandler" AemCommandStatus_t;
   mkHandler "GetStreamInputNameHandler" AemCommandStatus_t;
   mkHandler "SetStreamOutputNameHandler" AemCommandStatus_t;
   mkHandler "GetStreamOutputNameHandler" AemCommandStatus_t;
   mkHandler "SetAvbInterfaceNameHandler" AemCommandStatus_t;
   mkHandler "GetAvbInterfaceNameHandler" AemCommandStatus_t;
   mkHandler "SetClockSourceNameHandler" AemCommandStatus_t;
   mkHandler "GetClockSourceNameHandler" AemCommandStatus_t;
   mkHandler "SetMemoryObjectNameHandler" AemCommandStatus_t;
   mkHandler "GetMemoryObjectNameHandler" AemCommandStatus_t;
   mkHandler "SetAudioClusterNameHandler" AemCommandStatus_t;
   mkHandler "GetAudioClusterNameHandler" AemCommandStatus_t;
   mkHandler "SetClockDomainNameHandler" AemCommandStatus_t;
   mkHandler "GetClockDomainNameHandler" AemCommandStatus_t;
   mkHandler "SetAudioUnitSamplingRateHandler" AemCommandStatus_t;
   mkHandler "GetAudioUnitSamplingRateHandler" AemCommandStatus_t;
   mkHandler "SetVideoClusterSamplingRateHandler" AemCommandStatus_t;
   mkHandler "GetVideoClusterSamplingRateHandler" AemCommandStatus_t;
   mkHandler "SetSensorClusterSamplingRateHandler" AemCommandStatus_t;
   mkHandler "GetSensorClusterSamplingRateHandler" AemCommandStatus_t;
   mkHandler "SetClockSourceHandler" AemCommandStatus_t;
   mkHandler "GetClockSourceHandler" AemCommandStatus_t;
   mkHandler "StartStreamInputHandler" AemCommandStatus_t;
   mkHandler "StartStreamOutputHandler" AemCommandStatus_t;
   mkHandler "StopStreamInputHandler" AemCommandStatus_t;
   mkHandler "StopStreamOutputHandler" AemCommandStatus_t;
   mkHandler "GetAvbInfoHandler" AemCommandStatus_t;
   mkHandler "GetAvbInterfaceCountersHandler" AemCommandStatus_t;
   mkHandler "GetClockDomainCountersHandler" AemCommandStatus_t;
   mkHandler "GetStreamInputCountersHandler" AemCommandStatus_t;
   mkHandler "StartOperationHandler" AemCommandStatus_t;
   mkHandler "AbortOperationHandler" AemCommandStatus_t;
   mkHandler "SetMemoryObjectLengthHandler" AemCommandStatus_t;
   mkHandler "GetMemoryObjectLengthHandler" AemCommandStatus_t;
   mkHandler "AddressAccessHandler" AaCommandStatus_t;
   mkHandler "GetMilanInfoHandler" MvuCommandStatus_t;
   mkHandler "ConnectStreamHandler" ControlStatus_t;
   mkHandler "DisconnectStreamHandler" ControlStatus_t;
   mkHandler "DisconnectTalkerStreamHandler" ControlStatus_t;
   mkHandler "GetTalkerStreamStateHandler" ControlStatus_t;
   mkHandler "GetListenerStreamStateHandler" ControlStatus_t;
   mkHandler "GetTalkerStreamConnectionHandler" ControlStatus_t].
Definition command_methods : list MethodDecl :=
  [mkMethod "acquireEntity" AEM Void true "AcquireEntityHandler";
   mkMethod "releaseEntity" AEM Void true "ReleaseEntityHandler";
   mkMethod "lockEntity" AEM Void true "LockEntityHandler";
   mkMethod "unlockEntity" AEM Void true "UnlockEntityHandler";
   mkMethod "queryEntityAvailable" AEM Void true "QueryEntityAvailableHandler";
   mkMethod "queryControllerAvailable" AEM Void true "QueryControllerAvailableHandler";
   mkMethod "registerUnsolicitedNotifications" AEM Void true "RegisterUnsolicitedNotificationsHandler";
   mkMethod "unregisterUnsolicitedNotifications" AEM Void true "UnregisterUnsolicitedNotificationsHandler";
   mkMethod "readEntityDescriptor" AEM Void true "EntityDescriptorHandler";
   mkMethod "readConfigurationDescriptor" AEM Void true "ConfigurationDescriptorHandler";
   mkMethod "readAudioUnitDescriptor" AEM Void true "AudioUnitDescriptorHandler";
   mkMethod "readStreamInputDescriptor" AEM Void true "StreamInputDescriptorHandler";
   mkMethod "readStreamOutputDescriptor" AEM Void true "StreamOutputDescriptorHandler";
   mkMethod "readJackInputDescriptor" AEM Void true "JackInputDescriptorHandler";
   mkMethod "readJackOutputDescriptor" AEM Void true "JackOutputDescriptorHandler";
   mkMethod "readAvbInterfaceDescriptor" AEM Void true "AvbInterfaceDescriptorHandler";
   mkMethod "readClockSourceDescriptor" AEM Void true "ClockSourceDescriptorHandler";
   mkMethod "readMemoryObjectDescriptor" AEM Void true "MemoryObjectDescriptorHandler";
   mkMethod "readLocaleDescriptor" AEM Void true "LocaleDescriptorHandler";
   mkMethod "readStringsDescriptor" AEM Void true "StringsDescriptorHandler";
   mkMethod "readStreamPortInputDescriptor" AEM Void true "StreamPortInputDescriptorHandler";
   mkMethod "readStreamPortOutputDescriptor" AEM Void true "StreamPortOutputDescriptorHandler";
   mkMethod "readExternalPortInputDescriptor" AEM Void true "ExternalPortInputDescriptorHandler";
   mkMethod "readExternalPortOutputDescriptor" AEM Void true "ExternalPortOutputDescriptorHandler";
   mkMethod "readInternalPortInputDescriptor" AEM Void true "InternalPortInputDescriptorHandler";
   mkMethod "readInternalPortOutputDescriptor" AEM Void true "InternalPortOutputDescriptorHandler";
   mkMethod "readAudioClusterDescriptor" AEM Void true "AudioClusterDescriptorHandler";
   mkMethod "readAudioMapDescriptor" AEM Void true "AudioMapDescriptorHandler";
   mkMethod "readClockDomainDescriptor" AEM Void true "ClockDomainDescriptorHandler";
   mkMethod "setConfiguration" AEM Void true "SetConfigurationHandler";
   mkMethod "setStreamInputFormat" AEM Void true "SetStreamInputFormatHandler";
   mkMethod "getStreamInputFormat" AEM Void true "GetStreamInputFormatHandler";
   mkMethod "setStreamOutputFormat" AEM Void true "SetStreamOutputFormatHandler";
   mkMethod "getStreamOutputFormat" AEM Void true "GetStreamOutputFormatHandler";
   mkMethod "getStreamPortInputAudioMap" AEM Void true "GetStreamPortInputAudioMapHandler";
   mkMethod "getStreamPortOutputAudioMap" AEM Void true "GetStreamPortOutputAudioMapHandler";
   mkMethod "addStreamPortInputAudioMappings" AEM Void true "AddStreamPortInputAudioMappingsHandler";
   mkMethod "addStreamPortOutputAudioMappings" AEM Void true "AddStreamPortOutputAudioMappingsHandler";
   mkMethod "removeStreamPortInputAudioMappings" AEM Void true "RemoveStreamPortInputAudioMappingsHandler";
   mkMethod "removeStreamPortOutputAudioMappings" AEM Void true "RemoveStreamPortOutputAudioMappingsHandler";
   mkMethod "getStreamInputInfo" AEM Void true "GetStreamInputInfoHandler";
   mkMethod "getStreamOutputInfo" AEM Void true "GetStreamOutputInfoHandler";
   mkMethod "setEntityName" AEM Void true "SetEntityNameHandler";
   mkMethod "getEntityName" AEM Void true "GetEntityNameHandler";
   mkMethod "setEntityGroupName" AEM Void true "SetEntityGroupNameHandler";
   mkMethod "getEntityGroupName" AEM Void true "GetEntityGroupNameHandler";
   mkMethod "setConfigurationName" AEM Void true "SetConfigurationNameHandler";
   mkMethod "getConfigurationName" AEM Void true "GetConfigurationNameHandler";
   mkMethod "setAudioUnitName" AEM Void true "SetAudioUnitNameHandler";
   mkMethod "getAudioUnitName" AEM Void true "GetAudioUnitNameHandler";
   mkMethod "setStreamInputName" AEM Void true "SetStreamInputNameHandler";
   mkMethod "getStreamInputName" AEM Void true "GetStreamInputNameHandler";
   mkMethod "setStreamOutputName" AEM Void true "SetStreamOutputNameHandler";
   mkMethod "getStreamOutputName" AEM Void true "GetStreamOutputNameHandler";
   mkMethod "setAvbInterfaceName" AEM Void true "SetAvbInterfaceNameHandler";
   mkMethod "getAvbInterfaceName" AEM Void true "GetAvbInterfaceNameHandler";
   mkMethod "setClockSourceName" AEM Void true "SetClockSourceNameHandler";
   mkMethod "getClockSourceName" AEM Void true "GetClockSourceNameHandler";
   mkMethod "setMemoryObjectName" AEM Void true "SetMemoryObjectNameHandler";
   mkMethod "getMemoryObjectName" AEM Void true "GetMemoryObjectNameHandler";
   mkMethod "setAudioClusterName" AEM Void true "SetAudioClusterNameHandler";
   mkMethod "getAudioClusterName" AEM Void true "GetAudioClusterNameHandler";
   mkMethod "setClockDomainName" AEM Void true "SetClockDomainNameHandler";
   mkMethod "getClockDomainName" AEM Void true "GetClockDomainNameHandler";
   mkMethod "setAudioUnitSamplingRate" AEM Void true "SetAudioUnitSamplingRateHandler";
   mkMethod "getAudioUnitSamplingRate" AEM Void true "GetAudioUnitSamplingRateHandler";
   mkMethod "setVideoClusterSamplingRate" AEM Void true "SetVideoClusterSamplingRateHandler";
   mkMethod "getVideoClusterSamplingRate" AEM Void true "GetVideoClusterSamplingRateHandler";
   mkMethod "setSensorClusterSamplingRate" AEM Void true "SetSensorClusterSamplingRateHandler";
   mkMethod "getSensorClusterSamplingRate" AEM Void true "GetSensorClusterSamplingRateHandler";
   mkMethod "setClockSource" AEM Void true "SetClockSourceHandler";
   mkMethod "getClockSource" AEM Void true "GetClockSourceHandler";
   mkMethod "startStreamInput" AEM Void true "StartStreamInputHandler";
   mkMethod "startStreamOutput" AEM Void true "StartStreamOutputHandler";
   mkMethod "stopStreamInput" AEM Void true "StopStreamInputHandler";
   mkMethod "stopStreamOutput" AEM Void true "StopStreamOutputHandler";
   mkMethod "getAvbInfo" AEM Void true "GetAvbInfoHandler";
   mkMethod "getAvbInterfaceCounters" AEM Void true "GetAvbInterfaceCountersHandler";
   mkMethod "getClockDomainCounters" AEM Void true "GetClockDomainCountersHandler";
   mkMethod "getStreamInputCounters" AEM Void true "GetStreamInputCountersHandler";
   mkMethod "startOperation" AEM Void true "StartOperationHandler";
   mkMethod "abortOperation" AEM Void true "AbortOperationHandler";
   mkMethod "setMemoryObjectLength" AEM Void true "SetMemoryObjectLengthHandler";
   mkMethod "getMemoryObjectLength" AEM Void true "GetMemoryObjectLengthHandler";
   mkMethod "addressAccess" AA Void true "AddressAccessHandler";
   mkMethod "getMilanInfo" MVU Void true "GetMilanInfoHandler";
   mkMethod "connectStream" ACMP Void true "ConnectStreamHandler";
   mkMethod "disconnectStream" ACMP Void true "DisconnectStreamHandler";
   mkMethod "disconnectTalkerStream" ACMP Void true "DisconnectTalkerStreamHandler";
   mkMethod "getTalkerStreamState" ACMP Void true "GetTalkerStreamStateHandler";
   mkMethod "getListenerStreamState" ACMP Void true "GetListenerStreamStateHandler";
   mkMethod "getTalkerStreamConnection" ACMP Void true "GetTalkerStreamConnectionHandler"].

(** The status enum a method's result arrives in: that of its handler. *)
Definition result_status (m : MethodDecl) : option StatusEnum :=
  handler_status <$>
    List.find (fun h => String.eqb (handler_name h) (method_handler m)) handlers.

(** How the evaluation of a function body ends. *)
Inductive Completion : Set :=
| Returns
| Throws
| Terminates
| Diverges.

(** A call through a declaration.  An exception that would leave a function
    declared [noexcept] calls [std::terminate] instead of reaching the
    caller; every other completion of the body is the completion of the
    call. *)
Definition call (m : MethodDecl) (body : Completion) : Completion :=
  match body with
  | Throws => if method_noexcept m then Terminates else Throws
  | c => c
  end.

End Facade.

(** ** The public lock of the protocol interface

    [ProtocolInterface] derives from [Subject<ProtocolInterface,
    std::recursive_mutex>] and declares [lock()] and [unlock()] pure virtual;
    the class that implements them is not among the two headers. *)

Module InterfaceLock.

Definition thread := nat.

(** Modelled from the spec: the state of the reentrant (recursive) lock
    behind [lock]/[unlock]: free, or owned by one thread that has locked it
    [S nested] times. *)
Inductive t : Set :=
| Free
| Held (owner : thread) (nested : nat).

Inductive LockResult : Set :=
| Acquired (m : t)
| Blocks.

(** Modelled from the spec: [ProtocolInterface::lock()] called by [caller].
    The owner acquires again at once; any other thread waits while the lock
    is held. *)
Definition lock (caller : thread) (m : t) : LockResult :=
  match m with
  | Free => Acquired (Held caller 0)
  | Held owner nested =>
      if decide (owner = caller) then Acquired (Held owner (S nested)) else Blocks
  end.

(** Modelled from the spec: [ProtocolInterface::unlock()] called by [caller];
    [None] when the caller does not own the lock (a misuse of the
    [BasicLockable] contract). *)
Definition unlock (caller : thread) (m : t) : option t :=
  match m with
  | Free => None
  | Held owner nested =>
      if decide (owner = caller)
      then Some (match nested with O => Free | S n => Held owner n end)
      else None
  end.

Definition holds (caller : thread) (m : t) : bool :=
  match m with
  | Free => false
  | Held owner _ => bool_decide (owner = caller)
  end.

(** What one thread does with the lock, in program order: an engine call
    guarded by the interface lock is [DoLock] ... [DoUnlock], and a handler
    invoked in between may do the same again. *)
Inductive Op : Set := DoLock | DoUnlock.

(** Runs [ops] on behalf of [caller]; [None] when the thread would wait for
    another owner or unlocks what it does not own. *)
Fixpoint exec (caller : thread) (ops : list Op) (m : t) : option t :=
  match ops with
  | [] => Some m
  | DoLock :: ops' =>
      match lock caller m with
      | Acquired m' => exec caller ops' m'
      | Blocks => None
      end
  | DoUnlock :: ops' =>
      match unlock caller m with
      | Some m' => exec caller ops' m'
      | None => None
      end
  end.

(** [ops] never unlocks more than it has locked, starting [depth] levels
    inside the caller's own critical section; the result is the depth
    reached. *)
Fixpoint nesting (depth : nat) (ops : list Op) : option nat :=
  match ops with
  | [] => Some depth
  | DoLock :: ops' => nesting (S depth) ops'
  | DoUnlock :: ops' =>
      match depth with
      | O => None
      | S d => nesting d ops'
      end
  end.

End InterfaceLock.

(** ** What the specification says of the enums and of the fold *)

Module Normative.
Import ControllerEntity.

(** "Library-reserved range 994-999". *)
Definition reserved (z : Z) : bool := ((994 <=? z) && (z <=? 999))%Z.

(** The first element of [l] that is not [success]; [success] when there is
    none. *)
Definition first_failure {T : Type} `{EqDecision T} (success : T) (l : list T) : T :=
  default success (head (filter (fun s => s <> success) l)).

(** "The folded value is first failure seen", for a binary [fold] on a status
    type whose success value is [success]. *)
Definition folds_first_failure {T : Type} `{EqDecision T} (success : T) (fold : T -> T -> T) : Prop :=
  (forall a b, a <> success -> fold a b = a) /\
  (forall a b, a = success -> fold a b = b) /\
  (forall a, fold success a = a /\ fold a success = a) /\
  (forall a l, fold_left fold l a = first_failure success (a :: l)).

(** The facade error surface: "0 NoError, 1 TransportError, 2 Timeout,
    3 UnknownRemoteEntity, 4 UnknownLocalEntity, 5 InvalidEntityType,
    6 DuplicateLocalEntityID, 7 InterfaceNotFound, 8 InterfaceInvalid,
    9 InterfaceNotSupported, 10 MessageNotSupported, 99 InternalError". *)
Definition error_surface : list (ProtocolInterface.Error.enumerator * Z) :=
  [(ProtocolInterface.Error.NoError_, 0);
   (ProtocolInterface.Error.TransportError_, 1);
   (ProtocolInterface.Error.Timeout_, 2);
   (ProtocolInterface.Error.UnknownRemoteEntity_, 3);
   (ProtocolInterface.Error.UnknownLocalEntity_, 4);
   (ProtocolInterface.Error.InvalidEntityType_, 5);
   (ProtocolInterface.Error.DuplicateLocalEntityID_, 6);
   (ProtocolInterface.Error.InterfaceNotFound_, 7);
   (ProtocolInterface.Error.InterfaceInvalid_, 8);
   (ProtocolInterface.Error.InterfaceNotSupported_, 9);
   (ProtocolInterface.Error.MessageNotSupported_, 10);
   (ProtocolInterface.Error.InternalError_, 99)]%Z.

(** The ACMP status surface: "0 Success, 1 ListenerUnknownID, ...,
    14 ListenerMisbehaving, 16 ControllerNotAuthorized,
    17 IncompatibleRequest, 31 NotSupported, 995-999 as above". *)
Definition acmp_surface : list (ControlStatus.t * Z) :=
  [(ControlStatus.Success, 0); (ControlStatus.ListenerUnknownID, 1);
   (ControlStatus.TalkerUnknownID, 2); (ControlStatus.TalkerDestMacFail, 3);
   (ControlStatus.TalkerNoStreamIndex, 4); (ControlStatus.TalkerNoBandwidth, 5);
   (ControlStatus.TalkerExclusive, 6); (ControlStatus.ListenerTalkerTimeout, 7);
   (ControlStatus.ListenerExclusive, 8); (ControlStatus.StateUnavailable, 9);
   (ControlStatus.NotConnected, 10); (ControlStatus.NoSuchConnection, 11);
   (ControlStatus.CouldNotSendMessage, 12); (ControlStatus.TalkerMisbehaving, 13);
   (ControlStatus.ListenerMisbehaving, 14);
   (ControlStatus.ControllerNotAuthorized, 16); (ControlStatus.IncompatibleRequest, 17);
   (ControlStatus.NotSupported, 31);
   (ControlStatus.NetworkError, 995); (ControlStatus.ProtocolError, 996);
   (ControlStatus.TimedOut, 997); (ControlStatus.UnknownEntity, 998);
   (ControlStatus.InternalError, 999)]%Z.

End Normative.

(** ** Laws of a status fold

    What the overloads of [operator|] and [operator|=] are checked against
    below, for a status type whose success value is [success]. *)

Module FoldLaws.

(** The fold fails exactly when one of its operands fails, and its value is
    always one of the two operands. *)
Definition fails_when_either_fails {T : Type} `{OperatorNot T}
    (success : T) (fold : T -> T -> T) : Prop :=
  (forall a b, (! (fold a b)) = ((! a) || (! b))%bool) /\
  (forall a b, fold a b = success <-> a = success /\ b = success) /\
  (forall a b, fold a b = a \/ fold a b = b).

(** Swapping the operands changes the result unless they are equal or one of
    them is [success]. *)
Definition commutes_only_trivially {T : Type} (success : T) (fold : T -> T -> T) : Prop :=
  forall a b, fold a b = fold b a <-> a = b \/ a = success \/ b = success.

(** A variable updated by [status |= s1; status |= s2; ...]: a failure once
    stored is kept, the final value is the first failure of the initial value
    followed by the operands, and it is [success] only if all of them are. *)
Definition accumulates_first_failure {T : Type} `{EqDecision T}
    (success : T) (or_assign : T -> T -> T) : Prop :=
  (forall a l, a <> success -> fold_left or_assign l a = a) /\
  (forall a l, fold_left or_assign l a = Normative.first_failure success (a :: l)) /\
  (forall a l, fold_left or_assign l a = success <-> Forall (eq success) (a :: l)).

End FoldLaws.

(** ** Names of the enumerators

    The identifier each enumerator of the four command status enums is
    declared with. *)

Module StatusNames.
Import ControllerEntity.
Local Open Scope string_scope.

Definition aem_name (s : AemCommandStatus.t) : string :=
  match s with
  | AemCommandStatus.Success => "Success"
  | AemCommandStatus.NotImplemented => "NotImplemented"
  | AemCommandStatus.NoSuchDescriptor => "NoSuchDescriptor"
  | AemCommandStatus.LockedByOther => "LockedByOther"
  | AemCommandStatus.AcquiredByOther => "AcquiredByOther"
  | AemCommandStatus.NotAuthenticated => "NotAuthenticated"
  | AemCommandStatus.AuthenticationDisabled => "AuthenticationDisabled"
  | AemCommandStatus.BadArguments => "BadArguments"
  | AemCommandStatus.NoResources => "NoResources"
  | AemCommandStatus.InProgress => "InProgress"
  | AemCommandStatus.EntityMisbehaving => "EntityMisbehaving"
  | AemCommandStatus.NotSupported => "NotSupported"
  | AemCommandStatus.StreamIsRunning => "StreamIsRunning"
  | AemCommandStatus.NetworkError => "NetworkError"
  | AemCommandStatus.ProtocolError => "ProtocolError"
  | AemCommandStatus.TimedOut => "TimedOut"
  | AemCommandStatus.UnknownEntity => "UnknownEntity"
  | AemCommandStatus.InternalError => "InternalError"
  end.

Definition aa_name (s : AaCommandStatus.t) : string :=
  match s with
  | AaCommandStatus.Success => "Success"
  | AaCommandStatus.NotImplemented => "NotImplemented"
  | AaCommandStatus.AddressTooLow => "AddressTooLow"
  | AaCommandStatus.AddressTooHigh => "AddressTooHigh"
  | AaCommandStatus.AddressInvalid => "AddressInvalid"
  | AaCommandStatus.TlvInvalid => "TlvInvalid"
  | AaCommandStatus.DataInvalid => "DataInvalid"
  | AaCommandStatus.Unsupported => "Unsupported" | AaCommandStatus.Aborted => "Aborted"
  | AaCommandStatus.NetworkError => "NetworkError"
  | AaCommandStatus.ProtocolError => "ProtocolError"
  | AaCommandStatus.TimedOut => "TimedOut"
  | AaCommandStatus.UnknownEntity => "UnknownEntity"
  | AaCommandStatus.InternalError => "InternalError"
  end.

Definition mvu_name (s : MvuCommandStatus.t) : string :=
  match s with
  | MvuCommandStatus.Success => "Success"
  | MvuCommandStatus.NotImplemented => "NotImplemented"
  | MvuCommandStatus.BadArguments => "BadArguments"
  | MvuCommandStatus.NetworkError => "NetworkError"
  | MvuCommandStatus.ProtocolError => "ProtocolError"
  | MvuCommandStatus.TimedOut => "TimedOut"
  | MvuCommandStatus.UnknownEntity => "UnknownEntity"
  | MvuCommandStatus.InternalError => "InternalError"
  end.

Definition control_name (s : ControlStatus.t) : string :=
  match s with
  | ControlStatus.Success => "Success"
  | ControlStatus.ListenerUnknownID => "ListenerUnknownID"
  | ControlStatus.TalkerUnknownID => "TalkerUnknownID"
  | ControlStatus.TalkerDestMacFail => "TalkerDestMacFail"
  | ControlStatus.TalkerNoStreamIndex => "TalkerNoStreamIndex"
  | ControlStatus.TalkerNoBandwidth => "TalkerNoBandwidth"
  | ControlStatus.TalkerExclusive => "TalkerExclusive"
  | ControlStatus.ListenerTalkerTimeout => "ListenerTalkerTimeout"
  | ControlStatus.ListenerExclusive => "ListenerExclusive"
  | ControlStatus.StateUnavailable => "StateUnavailable"
  | ControlStatus.NotConnected => "NotConnected"
  | ControlStatus.NoSuchConnection => "NoSuchConnection"
  | ControlStatus.CouldNotSendMessage => "CouldNotSendMessage"
  | ControlStatus.TalkerMisbehaving => "TalkerMisbehaving"
  | ControlStatus.ListenerMisbehaving => "ListenerMisbehaving"
  | ControlStatus.ControllerNotAuthorized => "ControllerNotAuthorized"
  | ControlStatus.IncompatibleRequest => "IncompatibleRequest"
  | ControlStatus.NotSupported => "NotSupported"
  | ControlStatus.NetworkError => "NetworkError"
  | ControlStatus.ProtocolError => "ProtocolError" | ControlStatus.TimedOut => "TimedOut"
  | ControlStatus.UnknownEntity => "UnknownEntity"
  | ControlStatus.InternalError => "InternalError"
  end.

Definition name (x : CommandStatus) : string :=
  match x with
  | OfAem s => aem_name s
  | OfAa s => aa_name s
  | OfMvu s => mvu_name s
  | OfControl s => control_name s
  end.

End StatusNames.

(** ** Members of [ProtocolInterface], of its [Observer] and of the
       controller [Delegate]

    One row per callable member function the two headers declare in these
    three classes (deleted copy and move operations are left out): who
    declares it, how it is declared (pure virtual [= 0], virtual with the
    empty default body [{}], ...), its return type and whether it carries
    [noexcept]. *)

Module Members.

Local Open Scope string_scope.

Inductive Owner : Set := InProtocolInterface | InObserver | InDelegate.

Inductive MemberKind : Set :=
| Constructor | Destructor | NonVirtual | PureVirtual | VirtualDefault.

(** [RNone] for constructors and destructors, [RError] for
    [ProtocolInterface::Error], [ROther] for any other non-void type. *)
Inductive Return : Set := RNone | RVoid | RError | ROther.

#[global] Instance Owner_eq_dec : EqDecision Owner.
Proof. solve_decision. Defined.
#[global] Instance MemberKind_eq_dec : EqDecision MemberKind.
Proof. solve_decision. Defined.
#[global] Instance Return_eq_dec : EqDecision Return.
Proof. solve_decision. Defined.

Record MemberDecl : Set := mkMember {
  member_owner : Owner;
  member_name : string;
  member_kind : MemberKind;
  member_return : Return;
  member_noexcept : bool
}.

Definition members : list MemberDecl :=
  [mkMember InObserver "onTransportError" PureVirtual RVoid true;
   mkMember InObserver "onLocalEntityOnline" VirtualDefault RVoid true;
   mkMember InObserver "onLocalEntityOffline" VirtualDefault RVoid true;
   mkMember InObserver "onLocalEntityUpdated" VirtualDefault RVoid true;
   mkMember InObserver "onRemoteEntityOnline" VirtualDefault RVoid true;
   mkMember InObserver "onRemoteEntityOffline" VirtualDefault RVoid true;
   mkMember InObserver "onRemoteEntityUpdated" VirtualDefault RVoid true;
   mkMember InObserver "onAecpCommand" VirtualDefault RVoid true;
   mkMember InObserver "onAecpUnsolicitedResponse" VirtualDefault RVoid true;
   mkMember InObserver "onAcmpSniffedCommand" VirtualDefault RVoid true;
   mkMember InObserver "onAcmpSniffedResponse" VirtualDefault RVoid true;
   mkMember InProtocolInterface "~ProtocolInterface" Destructor RNone true;
   mkMember InProtocolInterface "getMacAddress" NonVirtual ROther true;
   mkMember InProtocolInterface "getInterfaceIndex" NonVirtual ROther true;
   mkMember InProtocolInterface "shutdown" PureVirtual RVoid true;
   mkMember InProtocolInterface "registerLocalEntity" PureVirtual RError true;
   mkMember InProtocolInterface "unregisterLocalEntity" PureVirtual RError true;
   mkMember InProtocolInterface "enableEntityAdvertising" PureVirtual RError true;
   mkMember InProtocolInterface "disableEntityAdvertising" PureVirtual RError true;
   mkMember InProtocolInterface "discoverRemoteEntities" PureVirtual RError true;
   mkMember InProtocolInterface "discoverRemoteEntity" PureVirtual RError true;
   mkMember InProtocolInterface "sendAdpMessage" PureVirtual RError true;
   mkMember InProtocolInterface "sendAecpMessage" PureVirtual RError true;
   mkMember InProtocolInterface "sendAcmpMessage" PureVirtual RError true;
   mkMember InProtocolInterface "sendAecpCommand" PureVirtual RError true;
   mkMember InProtocolInterface "sendAecpResponse" PureVirtual RError true;
   mkMember InProtocolInterface "sendAcmpCommand" PureVirtual RError true;
   mkMember InProtocolInterface "sendAcmpResponse" PureVirtual RError true;
   mkMember InProtocolInterface "lock" PureVirtual RVoid true;
   mkMember InProtocolInterface "unlock" PureVirtual RVoid true;
   mkMember InProtocolInterface "ProtocolInterface" Constructor RNone false;
   mkMember InProtocolInterface "ProtocolInterface" Constructor RNone false;
   mkMember InDelegate "onTransportError" VirtualDefault RVoid true;
   mkMember InDelegate "onEntityOnline" VirtualDefault RVoid true;
   mkMember InDelegate "onEntityUpdate" VirtualDefault RVoid true;
   mkMember InDelegate "onEntityOffline" VirtualDefault RVoid true;
   mkMember InDelegate "onControllerConnectResponseSniffed" VirtualDefault RVoid true;
   mkMember InDelegate "onControllerDisconnectResponseSniffed" VirtualDefault RVoid true;
   mkMember InDelegate "onListenerConnectResponseSniffed" VirtualDefault RVoid true;
   mkMember InDelegate "onListenerDisconnectResponseSniffed" VirtualDefault RVoid true;
   mkMember InDelegate "onGetTalkerStreamStateResponseSniffed" VirtualDefault RVoid true;
   mkMember InDelegate "onGetListenerStreamStateResponseSniffed" VirtualDefault RVoid true;
   mkMember InDelegate "onEntityAcquired" VirtualDefault RVoid true;
   mkMember InDelegate "onEntityReleased" VirtualDefault RVoid true;
   mkMember InDelegate "onConfigurationChanged" VirtualDefault RVoid true;
   mkMember InDelegate "onStreamInputFormatChanged" VirtualDefault RVoid true;
   mkMember InDelegate "onStreamOutputFormatChanged" VirtualDefault RVoid true;
   mkMember InDelegate "onStreamPortInputAudioMappingsChanged" VirtualDefault RVoid true;
   mkMember InDelegate "onStreamPortOutputAudioMappingsChanged" VirtualDefault RVoid true;
   mkMember InDelegate "onStreamInputInfoChanged" VirtualDefault RVoid true;
   mkMember InDelegate "onStreamOutputInfoChanged" VirtualDefault RVoid true;
   mkMember InDelegate "onEntityNameChanged" VirtualDefault RVoid true;
   mkMember InDelegate "onEntityGroupNameChanged" VirtualDefault RVoid true;
   mkMember InDelegate "onConfigurationNameChanged" VirtualDefault RVoid true;
   mkMember InDelegate "onAudioUnitNameChanged" VirtualDefault RVoid true;
   mkMember InDelegate "onStreamInputNameChanged" VirtualDefault RVoid true;
   mkMember InDelegate "onStreamOutputNameChanged" VirtualDefault RVoid true;
   mkMember InDelegate "onAvbInterfaceNameChanged" VirtualDefault RVoid true;
   mkMember InDelegate "onClockSourceNameChanged" VirtualDefault RVoid true;
   mkMember InDelegate "onMemoryObjectNameChanged" VirtualDefault RVoid true;
   mkMember InDelegate "onAudioClusterNameChanged" VirtualDefault RVoid true;
   mkMember InDelegate "onClockDomainNameChanged" VirtualDefault RVoid true;
   mkMember InDelegate "onAudioUnitSamplingRateChanged" VirtualDefault RVoid true;
   mkMember InDelegate "onVideoClusterSamplingRateChanged" VirtualDefault RVoid true;
   mkMember InDelegate "onSensorClusterSamplingRateChanged" VirtualDefault RVoid true;
   mkMember InDelegate "onClockSourceChanged" VirtualDefault RVoid true;
   mkMember InDelegate "onStreamInputStarted" VirtualDefault RVoid true;
   mkMember InDelegate "onStreamOutputStarted" VirtualDefault RVoid true;
   mkMember InDelegate "onStreamInputStopped" VirtualDefault RVoid true;
   mkMember InDelegate "onStreamOutputStopped" VirtualDefault RVoid true;
   mkMember InDelegate "onAvbInfoChanged" VirtualDefault RVoid true;
   mkMember InDelegate "onAvbInterfaceCountersChanged" VirtualDefault RVoid true;
   mkMember InDelegate "onClockDomainCountersChanged" VirtualDefault RVoid true;
   mkMember InDelegate "onStreamInputCountersChanged" VirtualDefault RVoid true;
   mkMember InDelegate "onMemoryObjectLengthChanged" VirtualDefault RVoid true;
   mkMember InDelegate "onOperationStatus" VirtualDefault RVoid true].

Definition declared_in (o : Owner) : list MemberDecl :=
  filter (fun m => member_owner m = o) members.

(** A call through a member declaration: as [Facade.call], an exception
    leaving a [noexcept] function ends in [std::terminate]; without
    [noexcept] it reaches the caller. *)
Definition member_call (m : MemberDecl) (body : Facade.Completion) : Facade.Completion :=
  match body with
  | Facade.Throws => if member_noexcept m then Facade.Terminates else Facade.Throws
  | c => c
  end.

End Members.

(** ** The controller behind the facade

    The command methods are pure virtual: the class that implements them is
    not among the two headers.  This module follows the specification of the
    controller facade and of the ACMP transaction engine, on top of the AECP
    engine above.  The arguments of a command are reduced to its target and
    its completion handler; the validation of descriptor indices against a
    target's descriptors is left out with the descriptors themselves. *)

Module Controller.

(** Modelled from the spec: what a facade call registers with a transaction
    engine, the typed completion of one call ("one typed completion per
    command"): the method called and the caller's completion handler.  The
    engines know a closure by its position in [closures]. *)
Record Closure : Set := mkClosure {
  closure_method : Facade.MethodDecl;
  closure_handler : nat
}.

(** Modelled from the spec: the state behind the facade.  The AECP engine,
    whose transport flag and handler log serve both engines; the ACMP
    engine's next sequence_id, its in-flight transactions (sequence_id and
    closure, oldest first) and the sequence_ids of the ACMP commands sent;
    the closures of the calls made so far. *)
Record t : Type := mkController {
  aecp : Engine.t;
  acmp_next_sequence_id : Z;
  acmp_inflight : list (Z * nat);
  acmp_wire : list Z;
  closures : list Closure
}.

Definition initial : t :=
  {| aecp := Engine.initial; acmp_next_sequence_id := 0; acmp_inflight := [];
     acmp_wire := []; closures := [] |}.

Definition set_aecp (e : Engine.t) (c : t) : t :=
  {| aecp := e; acmp_next_sequence_id := acmp_next_sequence_id c;
     acmp_inflight := acmp_inflight c; acmp_wire := acmp_wire c;
     closures := closures c |}.

Definition set_acmp_inflight (l : list (Z * nat)) (c : t) : t :=
  {| aecp := aecp c; acmp_next_sequence_id := acmp_next_sequence_id c;
     acmp_inflight := l; acmp_wire := acmp_wire c; closures := closures c |}.

(** Modelled from the spec: ACMP sequence_ids are assigned like the AECP
    ones, post-increment modulo 2^16 "skipping any id currently in-flight". *)
Fixpoint acmp_skip_inflight (fuel : nat) (busy : list Z) (id : Z) : Z :=
  match fuel with
  | O => id
  | S fuel' =>
      if decide (id ∈ busy) then acmp_skip_inflight fuel' busy (Engine.u16 (id + 1)) else id
  end.

(** Modelled from the spec: an ACMP command is issued.  ACMP commands are
    not serialized: the command is transmitted and registered at once, or
    fails with [NetworkError] when the transport is unusable. *)
Definition acmp_issue (closure : nat) (c : t) : t :=
  if Engine.transport_up (aecp c) then
    let id := acmp_skip_inflight (length (acmp_inflight c)) (acmp_inflight c).*1
                (acmp_next_sequence_id c) in
    {| aecp := aecp c; acmp_next_sequence_id := Engine.u16 (id + 1);
       acmp_inflight := acmp_inflight c ++ [(id, closure)];
       acmp_wire := acmp_wire c ++ [id]; closures := closures c |}
  else set_aecp (Engine.complete [(closure, Engine.Failed Engine.NetworkError)] (aecp c)) c.

(** The oldest in-flight ACMP transaction with sequence_id [id], and the
    in-flight transactions without it. *)
Fixpoint take_inflight (id : Z) (l : list (Z * nat)) : option (nat * list (Z * nat)) :=
  match l with
  | [] => None
  | (i, k) :: l' =>
      if decide (i = id) then Some (k, l')
      else match take_inflight id l' with
           | Some (k', rest) => Some (k', (i, k) :: rest)
           | None => None
           end
  end.

(** Modelled from the spec: an ACMP transaction ends.  A response matches by
    (controller_entity_id, sequence_id); what matches nothing completes
    nothing. *)
Definition acmp_finish (id : Z) (result : Engine.Outcome) (c : t) : t :=
  match take_inflight id (acmp_inflight c) with
  | Some (k, rest) =>
      set_acmp_inflight rest (set_aecp (Engine.complete [(k, result)] (aecp c)) c)
  | None => c
  end.

(** Every in-flight ACMP transaction completes with [s]. *)
Definition acmp_cancel_all (s : Engine.LibraryStatus) (c : t) : t :=
  set_acmp_inflight []
    (set_aecp (Engine.complete ((fun p => (p.2, Engine.Failed s)) <$> acmp_inflight c) (aecp c)) c).

(** The AECP dialect of a protocol of the facade; ACMP has none. *)
Definition aecp_kind (p : Facade.Protocol) : option Engine.AecpKind :=
  match p with
  | Facade.AEM => Some Engine.Aem
  | Facade.AA => Some Engine.Aa
  | Facade.MVU => Some Engine.Mvu
  | Facade.ACMP => None
  end.

(** Modelled from the spec: the body of a command method of the facade.
    "All operations are asynchronous: they return immediately and deliver
    their result through a per-call completion handler": the call registers
    its closure, hands the command to the AECP or to the ACMP engine, and
    returns. *)
Definition facade_body (m : Facade.MethodDecl) (target : Z) (handler : nat) (c : t) :
    Facade.Completion * t :=
  let k := length (closures c) in
  let c1 :=
    {| aecp := aecp c; acmp_next_sequence_id := acmp_next_sequence_id c;
       acmp_inflight := acmp_inflight c; acmp_wire := acmp_wire c;
       closures := closures c ++ [mkClosure m handler] |} in
  (Facade.Returns,
   match aecp_kind (Facade.method_protocol m) with
   | Some kind => set_aecp (Engine.issue target (Engine.mkCommand kind k) (aecp c1)) c1
   | None => acmp_issue k c1
   end).

(** A call of a command method through its declaration. *)
Definition invoke (m : Facade.MethodDecl) (target : Z) (handler : nat) (c : t) :
    Facade.Completion * t :=
  let r := facade_body m target handler c in
  (Facade.call m r.1, r.2).

(** Modelled from the spec: what can happen to the controller, a facade call
    ([Invoke], [Shutdown]) or an event of the inbound and timer workers. *)
Inductive Event : Type :=
| Invoke (m : Facade.MethodDecl) (target : Z) (handler : nat)
| AecpResponse (target : Z) (id : Z) (kind : Engine.AecpKind) (status : Z)
| AecpMalformedResponse (target : Z) (id : Z)
| AecpTimeout (target : Z) (id : Z)
| AcmpResponse (id : Z) (status : Z)
| AcmpMalformedResponse (id : Z)
| AcmpTimeout (id : Z)
| EntityOnline (target : Z)
| EntityOffline (target : Z)
| TransportError
| Shutdown.

(** Modelled from the spec: one event.  ACMP has "no retries": its timeout
    ends the transaction with [TimedOut].  A fatal transport error and a
    shutdown cancel the pending transactions of both engines, with
    [NetworkError] and with [InternalError]. *)
Definition step (c : t) (ev : Event) : t :=
  match ev with
  | Invoke m target handler => (invoke m target handler c).2
  | AecpResponse target id kind status =>
      set_aecp (Engine.on_response target id kind status (aecp c)) c
  | AecpMalformedResponse target id =>
      set_aecp (Engine.on_malformed_response target id (aecp c)) c
  | AecpTimeout target id => set_aecp (Engine.on_timeout target id (aecp c)) c
  | AcmpResponse id status => acmp_finish id (Engine.Responded status) c
  | AcmpMalformedResponse id => acmp_finish id (Engine.Failed Engine.ProtocolError) c
  | AcmpTimeout id => acmp_finish id (Engine.Failed Engine.TimedOut) c
  | EntityOnline target => set_aecp (Engine.on_entity_online target (aecp c)) c
  | EntityOffline target => set_aecp (Engine.on_entity_offline target (aecp c)) c
  | TransportError =>
      let c' := acmp_cancel_all Engine.NetworkError c in
      set_aecp (Engine.on_transport_error (aecp c')) c'
  | Shutdown =>
      let c' := acmp_cancel_all Engine.InternalError c in
      set_aecp (Engine.shutdown (aecp c')) c'
  end.

Definition run (trace : list Event) (c : t) : t := fold_left step trace c.

(** The closures a trace creates, one per facade call, in call order. *)
Definition calls (trace : list Event) : list Closure :=
  omap (fun ev => match ev with
                  | Invoke m _ handler => Some (mkClosure m handler)
                  | _ => None
                  end) trace.

(** The AECP commands that are in flight or queued, over all targets. *)
Definition aecp_pending (e : Engine.t) : list Engine.Command :=
  concat (Engine.pending <$> (map_to_list (Engine.targets e)).*2).

(** The closures whose command is still pending in one of the engines, and
    the closures whose handler has been invoked. *)
Definition pending_ids (c : t) : list nat :=
  (Engine.cmd_completion_handler <$> aecp_pending (aecp c)) ++ (acmp_inflight c).*2.

Definition completed_ids (c : t) : list nat := (Engine.completions (aecp c)).*1.

(** Modelled from the spec: the enumerator a library status becomes in each
    of the four status enums ("all faults become one of the status enums"). *)
Definition library_status (en : Facade.StatusEnum) (s : Engine.LibraryStatus) :
    ControllerEntity.CommandStatus :=
  match en, s with
  | Facade.AemCommandStatus_t, Engine.NetworkError =>
      ControllerEntity.OfAem ControllerEntity.AemCommandStatus.NetworkError
  | Facade.AemCommandStatus_t, Engine.ProtocolError =>
      ControllerEntity.OfAem ControllerEntity.AemCommandStatus.ProtocolError
  | Facade.AemCommandStatus_t, Engine.TimedOut =>
      ControllerEntity.OfAem ControllerEntity.AemCommandStatus.TimedOut
  | Facade.AemCommandStatus_t, Engine.UnknownEntity =>
      ControllerEntity.OfAem ControllerEntity.AemCommandStatus.UnknownEntity
  | Facade.AemCommandStatus_t, Engine.InternalError =>
      ControllerEntity.OfAem ControllerEntity.AemCommandStatus.InternalError
  | Facade.AaCommandStatus_t, Engine.NetworkError =>
      ControllerEntity.OfAa ControllerEntity.AaCommandStatus.NetworkError
  | Facade.AaCommandStatus_t, Engine.ProtocolError =>
      ControllerEntity.OfAa ControllerEntity.AaCommandStatus.ProtocolError
  | Facade.AaCommandStatus_t, Engine.TimedOut =>
      ControllerEntity.OfAa ControllerEntity.AaCommandStatus.TimedOut
  | Facade.AaCommandStatus_t, Engine.UnknownEntity =>
      ControllerEntity.OfAa ControllerEntity.AaCommandStatus.UnknownEntity
  | Facade.AaCommandStatus_t, Engine.InternalError =>
      ControllerEntity.OfAa ControllerEntity.AaCommandStatus.InternalError
  | Facade.MvuCommandStatus_t, Engine.NetworkError =>
      ControllerEntity.OfMvu ControllerEntity.MvuCommandStatus.NetworkError
  | Facade.MvuCommandStatus_t, Engine.ProtocolError =>
      ControllerEntity.OfMvu ControllerEntity.MvuCommandStatus.ProtocolError
  | Facade.MvuCommandStatus_t, Engine.TimedOut =>
      ControllerEntity.OfMvu ControllerEntity.MvuCommandStatus.TimedOut
  | Facade.MvuCommandStatus_t, Engine.UnknownEntity =>
      ControllerEntity.OfMvu ControllerEntity.MvuCommandStatus.UnknownEntity
  | Facade.MvuCommandStatus_t, Engine.InternalError =>
      ControllerEntity.OfMvu ControllerEntity.MvuCommandStatus.InternalError
  | Facade.ControlStatus_t, Engine.NetworkError =>
      ControllerEntity.OfControl ControllerEntity.ControlStatus.NetworkError
  | Facade.ControlStatus_t, Engine.ProtocolError =>
      ControllerEntity.OfControl ControllerEntity.ControlStatus.ProtocolError
  | Facade.ControlStatus_t, Engine.TimedOut =>
      ControllerEntity.OfControl ControllerEntity.ControlStatus.TimedOut
  | Facade.ControlStatus_t, Engine.UnknownEntity =>
      ControllerEntity.OfControl ControllerEntity.ControlStatus.UnknownEntity
  | Facade.ControlStatus_t, Engine.InternalError =>
      ControllerEntity.OfControl ControllerEntity.ControlStatus.InternalError
  end.

(** The enum a status belongs to. *)
Definition enum_of (x : ControllerEntity.CommandStatus) : Facade.StatusEnum :=
  match x with
  | ControllerEntity.OfAem _ => Facade.AemCommandStatus_t
  | ControllerEntity.OfAa _ => Facade.AaCommandStatus_t
  | ControllerEntity.OfMvu _ => Facade.MvuCommandStatus_t
  | ControllerEntity.OfControl _ => Facade.ControlStatus_t
  end.

(** A value of one of the four status enums, as a handler receives it: the
    enum and the underlying [std::uint16_t]. *)
Record StatusValue : Set := mkStatusValue {
  status_enum : Facade.StatusEnum;
  status_code : Z
}.

(** Modelled from the spec: the "status translation on completion".  The
    status field of a response is cast to the handler's enum; a library
    status becomes the enumerator of that name. *)
Definition translate (en : Facade.StatusEnum) (o : Engine.Outcome) : StatusValue :=
  match o with
  | Engine.Responded status => {| status_enum := en; status_code := status |}
  | Engine.Failed s =>
      {| status_enum := en;
         status_code := ControllerEntity.CommandStatus_value (library_status en s) |}
  end.

(** Modelled from the spec: the invocation of the caller's handler that an
    engine's completion of a closure stands for: the handler of the call,
    with the outcome translated to the status enum its [using] alias
    declares. *)
Definition delivery (c : t) (done : nat * Engine.Outcome) : option (nat * StatusValue) :=
  match closures c !! done.1 with
  | Some cl =>
      match Facade.result_status (closure_method cl) with
      | Some en => Some (closure_handler cl, translate en done.2)
      | None => None
      end
  | None => None
  end.

End Controller.

(** * Properties *)

Import ControllerEntity.

(** ** Enumerators and their values *)

Lemma AemCommandStatus_value_inj : Inj (=) (=) AemCommandStatus.value.
Proof. intros a b; destruct a, b; simpl; congruence. Qed.

Lemma AaCommandStatus_value_inj : Inj (=) (=) AaCommandStatus.value.
Proof. intros a b; destruct a, b; simpl; congruence. Qed.

Lemma MvuCommandStatus_value_inj : Inj (=) (=) MvuCommandStatus.value.
Proof. intros a b; destruct a, b; simpl; congruence. Qed.

Lemma ControlStatus_value_inj : Inj (=) (=) ControlStatus.value.
Proof. intros a b; destruct a, b; simpl; congruence. Qed.

Lemma Error_value_inj : Inj (=) (=) ProtocolInterface.Error.value.
Proof. intros a b; destruct a, b; simpl; congruence. Qed.

(** ** Negation and fold on a status type, once for the four enums *)

Section FirstFailure.
Context {T : Type} `{EqDecision T} `{Underlying T}.
Variable success : T.
Variable not_ : T -> bool.
Variable or_ : T -> T -> T.
Hypothesis underlying_inj : forall a b : T, to_underlying a = to_underlying b -> a = b.
Hypothesis not_def : forall s, not_ s = negb (to_underlying s =? to_underlying success)%Z.
Hypothesis or_def : forall a b, or_ a b = if negb (not_ a) then b else a.

Lemma not_true_iff s : not_ s = true <-> s <> success.
Proof.
  rewrite not_def, negb_true_iff, Z.eqb_neq. split.
  - intros Hne ->. by apply Hne.
  - intros Hne Heq. by apply Hne, underlying_inj.
Qed.

Lemma not_success : not_ success = false.
Proof. rewrite not_def, Z.eqb_refl. reflexivity. Qed.

Lemma or_of_failure a b : a <> success -> or_ a b = a.
Proof. intros Ha. apply not_true_iff in Ha. by rewrite or_def, Ha. Qed.

Lemma or_of_success b : or_ success b = b.
Proof. by rewrite or_def, not_success. Qed.

Lemma or_success_right a : or_ a success = a.
Proof.
  destruct (decide (a = success)) as [->|Ha].
  - apply or_of_success.
  - by apply or_of_failure.
Qed.

Lemma first_failure_cons a l :
  Normative.first_failure success (a :: l) =
  if decide (a = success) then Normative.first_failure success l else a.
Proof.
  unfold Normative.first_failure. destruct (decide (a = success)) as [Ha|Ha].
  - by rewrite filter_cons_False by (intros Hn; by apply Hn).
  - by rewrite filter_cons_True.
Qed.

Lemma fold_left_first_failure l :
  forall a, fold_left or_ l a = Normative.first_failure success (a :: l).
Proof.
  induction l as [|b l IH]; intros a.
  - rewrite first_failure_cons. simpl. by destruct (decide (a = success)).
  - simpl. rewrite IH, (first_failure_cons a).
    destruct (decide (a = success)) as [->|Ha].
    + by rewrite or_of_success.
    + rewrite or_of_failure by done. rewrite first_failure_cons.
      by destruct (decide (a = success)).
Qed.

Lemma or_folds_first_failure : Normative.folds_first_failure success or_.
Proof.
  repeat split.
  - intros a b. apply or_of_failure.
  - intros a b ->. apply or_of_success.
  - apply or_of_success.
  - apply or_success_right.
  - intros a l. apply fold_left_first_failure.
Qed.

End FirstFailure.

(** C9: for every value [s] of [AemCommandStatus], [AaCommandStatus],
    [MvuCommandStatus] and [ControlStatus], [operator!] returns [true] if and
    only if [s] is not [Success]: negation on a command status tests for
    failure. *)
Theorem command_status_not_tests_failure :
  (forall s : AemCommandStatus.t, (! s) = true <-> s <> AemCommandStatus.Success) /\
  (forall s : AaCommandStatus.t, (! s) = true <-> s <> AaCommandStatus.Success) /\
  (forall s : MvuCommandStatus.t, (! s) = true <-> s <> MvuCommandStatus.Success) /\
  (forall s : ControlStatus.t, (! s) = true <-> s <> ControlStatus.Success).
Proof.
  split; [| split; [| split]]; intros s.
  - apply not_true_iff; [apply AemCommandStatus_value_inj | done].
  - apply not_true_iff; [apply AaCommandStatus_value_inj | done].
  - apply not_true_iff; [apply MvuCommandStatus_value_inj | done].
  - apply not_true_iff; [apply ControlStatus_value_inj | done].
Qed.

(** C1: for [AemCommandStatus], [AaCommandStatus] and [MvuCommandStatus]
    (through [operator|]) and for [ControlStatus] (through the overload of
    [operator|=] that returns a value), folding two statuses yields the first
    failure seen: the fold of [a] and [b] is [a] when [a] is not [Success] and
    [b] when [a] is [Success]; [Success] is a two-sided identity, and folding
    a sequence from the left yields its first element that is not [Success]
    ([Success] when there is none). *)
Theorem status_fold_is_first_failure :
  Normative.folds_first_failure AemCommandStatus.Success (operator_or (T := AemCommandStatus.t)) /\
  Normative.folds_first_failure AaCommandStatus.Success (operator_or (T := AaCommandStatus.t)) /\
  Normative.folds_first_failure MvuCommandStatus.Success (operator_or (T := MvuCommandStatus.t)) /\
  Normative.folds_first_failure ControlStatus.Success ControlStatus_or_assign_value.
Proof.
  split; [| split; [| split]].
  - apply (or_folds_first_failure _ operator_not); [apply AemCommandStatus_value_inj | done | done].
  - apply (or_folds_first_failure _ operator_not); [apply AaCommandStatus_value_inj | done | done].
  - apply (or_folds_first_failure _ operator_not); [apply MvuCommandStatus_value_inj | done | done].
  - apply (or_folds_first_failure _ operator_not); [apply ControlStatus_value_inj | done | done].
Qed.

(** The overloads of [operator|=] that take [lhs] by reference store the
    folded value. *)
Lemma or_assign_stores_fold :
  (forall a b : AemCommandStatus.t, operator_or_assign a b = operator_or a b) /\
  (forall a b : AaCommandStatus.t, operator_or_assign a b = operator_or a b) /\
  (forall a b : MvuCommandStatus.t, operator_or_assign a b = operator_or a b) /\
  (forall a b : ControlStatus.t,
     ControlStatus_or_assign_ref a b = ControlStatus_or_assign_value a b).
Proof. repeat split. Qed.

(** The fold at work: two successes and then two different failures. *)
Example status_fold_example :
  fold_left operator_or
    [AemCommandStatus.Success; AemCommandStatus.TimedOut; AemCommandStatus.BadArguments]
    AemCommandStatus.Success = AemCommandStatus.TimedOut.
Proof. reflexivity. Qed.

(** The values fit the underlying type [std::uint16_t]. *)
Lemma CommandStatus_value_uint16 x : (0 <= CommandStatus_value x < 65536)%Z.
Proof. destruct x as [s|s|s|s]; destruct s; simpl; lia. Qed.

(** C3: in each of the four command status enums the library codes
    ([NetworkError], [ProtocolError], [TimedOut], [UnknownEntity],
    [InternalError], and [Aborted] for AA) are exactly the enumerators whose
    value lies in the reserved range 994-999; no protocol-assigned code of any
    of the enums has a value there, so a library code of one enum never
    equals a protocol code of the same or of another enum. *)
Theorem library_codes_in_reserved_range :
  (forall x, Normative.reserved (CommandStatus_value x) = true <->
             CommandStatus_origin x = LibraryCode) /\
  (forall x y, CommandStatus_origin x = LibraryCode ->
               CommandStatus_origin y = ProtocolCode ->
               CommandStatus_value x <> CommandStatus_value y) /\
  filter (fun s => AemCommandStatus.origin s = LibraryCode) AemCommandStatus.enumerators =
    [AemCommandStatus.NetworkError; AemCommandStatus.ProtocolError; AemCommandStatus.TimedOut;
     AemCommandStatus.UnknownEntity; AemCommandStatus.InternalError] /\
  filter (fun s => AaCommandStatus.origin s = LibraryCode) AaCommandStatus.enumerators =
    [AaCommandStatus.Aborted; AaCommandStatus.NetworkError; AaCommandStatus.ProtocolError;
     AaCommandStatus.TimedOut; AaCommandStatus.UnknownEntity; AaCommandStatus.InternalError] /\
  filter (fun s => MvuCommandStatus.origin s = LibraryCode) MvuCommandStatus.enumerators =
    [MvuCommandStatus.NetworkError; MvuCommandStatus.ProtocolError; MvuCommandStatus.TimedOut;
     MvuCommandStatus.UnknownEntity; MvuCommandStatus.InternalError] /\
  filter (fun s => ControlStatus.origin s = LibraryCode) ControlStatus.enumerators =
    [ControlStatus.NetworkError; ControlStatus.ProtocolError; ControlStatus.TimedOut;
     ControlStatus.UnknownEntity; ControlStatus.InternalError].
Proof.
  assert (Hrange : forall x, Normative.reserved (CommandStatus_value x) = true <->
                             CommandStatus_origin x = LibraryCode).
  { intros x. destruct x as [s|s|s|s]; destruct s; simpl; split; (done || discriminate). }
  split; [exact Hrange |]. split; [| repeat split; reflexivity].
  intros x y Hx Hy Heq. apply Hrange in Hx. rewrite Heq in Hx.
  apply Hrange in Hx. congruence.
Qed.

(** C4: the enumerators of [ProtocolInterface::Error] and their values are
    exactly the pairs of the normative error surface (0 [NoError] ... 10
    [MessageNotSupported], 99 [InternalError]); the enum has no other
    enumerator and takes no other value. *)
Theorem error_enum_is_normative :
  (forall e z, ProtocolInterface.Error.value e = z <-> (e, z) ∈ Normative.error_surface) /\
  (forall z, (exists e, ProtocolInterface.Error.value e = z) <->
             z ∈ [0; 1; 2; 3; 4; 5; 6; 7; 8; 9; 10; 99]%Z) /\
  length Normative.error_surface = 12.
Proof.
  split; [| split; [| reflexivity]].
  - intros e z. unfold Normative.error_surface. split.
    + intros <-. destruct e; simpl; set_solver.
    + rewrite !elem_of_cons, elem_of_nil.
      intros Hin. repeat destruct Hin as [Hin | Hin]; try done;
        by inversion Hin.
  - intros z. split.
    + intros [e <-]. destruct e; simpl; set_solver.
    + rewrite !elem_of_cons, elem_of_nil. intros Hin.
      repeat destruct Hin as [-> | Hin]; try done;
        [ by exists ProtocolInterface.Error.NoError_
        | by exists ProtocolInterface.Error.TransportError_
        | by exists ProtocolInterface.Error.Timeout_
        | by exists ProtocolInterface.Error.UnknownRemoteEntity_
        | by exists ProtocolInterface.Error.UnknownLocalEntity_
        | by exists ProtocolInterface.Error.InvalidEntityType_
        | by exists ProtocolInterface.Error.DuplicateLocalEntityID_
        | by exists ProtocolInterface.Error.InterfaceNotFound_
        | by exists ProtocolInterface.Error.InterfaceInvalid_
        | by exists ProtocolInterface.Error.InterfaceNotSupported_
        | by exists ProtocolInterface.Error.MessageNotSupported_
        | by exists ProtocolInterface.Error.InternalError_ ].
Qed.

(** C5: the enumerators of [ControlStatus] and their values are exactly the
    pairs of the normative ACMP surface: protocol codes 0 to 14,
    [ControllerNotAuthorized] = 16, [IncompatibleRequest] = 17,
    [NotSupported] = 31 and the library codes 995 to 999.  No enumerator has
    the value 15, a value from 18 to 30, or any other value. *)
Theorem control_status_is_normative :
  (forall s z, ControlStatus.value s = z <-> (s, z) ∈ Normative.acmp_surface) /\
  (forall z, (exists s, ControlStatus.value s = z) <->
             (0 <= z <= 14 \/ z = 16 \/ z = 17 \/ z = 31 \/ 995 <= z <= 999)%Z) /\
  (forall s, ControlStatus.value s <> 15%Z /\
             ~ (18 <= ControlStatus.value s <= 30)%Z) /\
  length Normative.acmp_surface = 23.
Proof.
  split; [| split; [| split; [| reflexivity]]].
  - intros s z. unfold Normative.acmp_surface. split.
    + intros <-. destruct s; simpl; set_solver.
    + rewrite !elem_of_cons, elem_of_nil.
      intros Hin. repeat destruct Hin as [Hin | Hin]; try done;
        by inversion Hin.
  - intros z. split.
    + intros [s <-]. destruct s; simpl; lia.
    + intros Hz.
      assert (Hcases : z ∈ [0; 1; 2; 3; 4; 5; 6; 7; 8; 9; 10; 11; 12; 13; 14;
                            16; 17; 31; 995; 996; 997; 998; 999]%Z).
      { rewrite !elem_of_cons, elem_of_nil. lia. }
      clear Hz. revert Hcases.
      change (z ∈ ControlStatus.value <$> ControlStatus.enumerators -> exists s, ControlStatus.value s = z).
      intros (s & -> & _)%list_elem_of_fmap. by exists s.
  - intros s. destruct s; simpl; lia.
Qed.

(** C10: for every [ProtocolInterface::Error] [e], [operator!] returns [true]
    if and only if [e] equals [NoError]: on the facade error enum negation
    tests for success, whereas on a command status it tests for failure:
    [!NoError] is [true] while [!Success] is [false] in each of the four
    command status enums. *)
Theorem error_not_tests_success :
  (forall e : ProtocolInterface.Error.t, (! e) = true <-> e = ProtocolInterface.Error.NoError) /\
  (forall s : AemCommandStatus.t, (! s) = true <-> s <> AemCommandStatus.Success) /\
  (! ProtocolInterface.Error.NoError) = true /\
  (! AemCommandStatus.Success) = false /\
  (! AaCommandStatus.Success) = false /\
  (! MvuCommandStatus.Success) = false /\
  (! ControlStatus.Success) = false.
Proof.
  split; [| split; [| repeat split]].
  - intros [v]. unfold operator_not, ProtocolInterface.Error_not, to_underlying,
      ProtocolInterface.Error_underlying. simpl.
    rewrite Z.eqb_eq. split.
    + by intros ->.
    + by intros [= ->].
  - intros s. apply not_true_iff; [apply AemCommandStatus_value_inj | done].
Qed.

(** ** The fold on [ProtocolInterface::Error] *)

Lemma Error_or_assign_underlying (a b : ProtocolInterface.Error.t) :
  to_underlying (operator_or_assign a b) = Z.lor (to_underlying a) (to_underlying b).
Proof. reflexivity. Qed.

Lemma Error_or_assign_NoError_left (b : ProtocolInterface.Error.t) :
  operator_or_assign ProtocolInterface.Error.NoError b = b.
Proof. by destruct b. Qed.

(** C2, evaluated on the code: [operator|=] on [ProtocolInterface::Error]
    stores the bitwise or of the two underlying integers.  With [lhs] =
    [TransportError] (1), which is not [NoError], and [rhs] = [Timeout] (2)
    the stored value is 3, [UnknownRemoteEntity], not the original [lhs];
    with [UnknownLocalEntity] (4) and [InterfaceInvalid] (8) it is 12, which
    no enumerator names. *)
Theorem error_or_assign_is_bitwise_or :
  ProtocolInterface.Error.TransportError <> ProtocolInterface.Error.NoError /\
  operator_or_assign ProtocolInterface.Error.TransportError ProtocolInterface.Error.Timeout
    = ProtocolInterface.Error.UnknownRemoteEntity /\
  operator_or_assign ProtocolInterface.Error.TransportError ProtocolInterface.Error.Timeout
    <> ProtocolInterface.Error.TransportError /\
  ProtocolInterface.Error.named
    (operator_or_assign ProtocolInterface.Error.UnknownLocalEntity
       ProtocolInterface.Error.InterfaceInvalid) = false.
Proof. repeat split; done. Qed.

(** ** The AECP engine: at most one command in flight per target *)

Section EngineInvariant.
Import Engine.

Lemma target_state_set_target target ts e target' :
  target_state (set_target target ts e) target' =
  if decide (target = target') then ts else target_state e target'.
Proof.
  unfold target_state, set_target; simpl.
  destruct (decide (target = target')) as [->|Hne].
  - by rewrite lookup_insert_eq.
  - by rewrite lookup_insert_ne.
Qed.

Lemma target_state_set_target_eq target ts e :
  target_state (set_target target ts e) target = ts.
Proof. by rewrite target_state_set_target, decide_True. Qed.

Lemma target_state_None e target :
  targets e !! target = None -> target_state e target = fresh_target.
Proof. unfold target_state. by intros ->. Qed.

Lemma targets_Some_of_queue e target :
  serialization_queue (target_state e target) <> [] -> is_Some (targets e !! target).
Proof.
  unfold target_state. destruct (targets e !! target); [eauto | done].
Qed.

Lemma targets_Some_of_inflight e target id tx :
  inflight (target_state e target) !! id = Some tx -> is_Some (targets e !! target).
Proof.
  unfold target_state. destruct (targets e !! target); [eauto | done].
Qed.

Lemma known_target e target :
  serialized e -> is_Some (targets e !! target) -> target ∈ discovery e.
Proof.
  intros [_ Hknown] Hsome. destruct (decide (target ∈ discovery e)) as [|Hnot]; [done |].
  apply Hknown in Hnot. rewrite Hnot in Hsome. by destruct Hsome.
Qed.

(** Storing a state with at most one in-flight transaction for a known
    target keeps the invariant. *)
Lemma serialized_set_target e target ts :
  serialized e -> target ∈ discovery e -> size (inflight ts) <= 1 ->
  serialized (set_target target ts e).
Proof.
  intros [Hone Hknown] Hin Hts. split.
  - intros target'. rewrite target_state_set_target. by case_decide.
  - intros target' Hnot. simpl in *.
    rewrite lookup_insert_ne; [by apply Hknown | by intros ->].
Qed.

Lemma serialized_transmit e f : serialized e -> serialized (transmit f e).
Proof. done. Qed.

Lemma serialized_complete e done_ : serialized e -> serialized (complete done_ e).
Proof. done. Qed.

Lemma serialized_pump e target : serialized e -> serialized (pump target e).
Proof.
  intros He. unfold pump.
  destruct (decide (inflight (target_state e target) = ∅)) as [Hempty|]; [| done].
  destruct (serialization_queue (target_state e target)) as [|c q] eqn:Hq; [done |].
  assert (target ∈ discovery e) as Hin.
  { apply known_target; [done |]. apply targets_Some_of_queue. by rewrite Hq. }
  destruct (transport_up e).
  - apply serialized_set_target; [by apply serialized_transmit | done |]. simpl.
    rewrite Hempty, map_size_insert_None, map_size_empty by apply lookup_empty. lia.
  - apply serialized_set_target; [by apply serialized_complete | done |]. simpl.
    by destruct He as [Hone _].
Qed.

Lemma serialized_issue e target c : serialized e -> serialized (issue target c e).
Proof.
  intros He. unfold issue. case_decide as Hin; [| by apply serialized_complete].
  apply serialized_pump, serialized_set_target; [done | done |]. simpl.
  by destruct He as [Hone _].
Qed.

Lemma serialized_finish e target id tx result :
  serialized e -> inflight (target_state e target) !! id = Some tx ->
  serialized (finish target id tx result e).
Proof.
  intros He Htx. unfold finish.
  apply serialized_pump, serialized_set_target.
  - by apply serialized_complete.
  - simpl. eapply known_target; [done |]. by eapply targets_Some_of_inflight.
  - simpl. destruct He as [Hone _]. specialize (Hone target).
    rewrite map_size_delete, Htx. simpl. lia.
Qed.

Lemma serialized_on_response e target id kind status :
  serialized e -> serialized (on_response target id kind status e).
Proof.
  intros He. unfold on_response.
  destruct (inflight (target_state e target) !! id) as [tx|] eqn:Htx; [| done].
  case_decide; [| done]. by apply serialized_finish.
Qed.

Lemma serialized_on_malformed_response e target id :
  serialized e -> serialized (on_malformed_response target id e).
Proof.
  intros He. unfold on_malformed_response.
  destruct (inflight (target_state e target) !! id) as [tx|] eqn:Htx; [| done].
  by apply serialized_finish.
Qed.

Lemma serialized_on_timeout e target id :
  serialized e -> serialized (on_timeout target id e).
Proof.
  intros He. unfold on_timeout.
  destruct (inflight (target_state e target) !! id) as [tx|] eqn:Htx; [| done].
  destruct (tx_attempts_remaining tx) as [|n]; [by apply serialized_finish |].
  apply serialized_set_target.
  - by apply serialized_transmit.
  - simpl. eapply known_target; [done |]. by eapply targets_Some_of_inflight.
  - simpl. rewrite map_size_insert_Some by (rewrite Htx; eauto).
    by destruct He as [Hone _].
Qed.

Lemma serialized_on_entity_online e target :
  serialized e -> serialized (on_entity_online target e).
Proof.
  intros [Hone Hknown]. split; [done |].
  intros target' Hnot. simpl in *. apply Hknown. set_solver.
Qed.

Lemma serialized_on_entity_offline e target :
  serialized e -> serialized (on_entity_offline target e).
Proof.
  intros [Hone Hknown]. split.
  - intros target'. unfold target_state; simpl.
    destruct (decide (target = target')) as [->|Hne].
    + rewrite lookup_delete_eq. simpl. rewrite map_size_empty. lia.
    + rewrite lookup_delete_ne by done. apply Hone.
  - intros target' Hnot. simpl in *.
    destruct (decide (target = target')) as [->|Hne].
    + by rewrite lookup_delete_eq.
    + rewrite lookup_delete_ne by done. apply Hknown. set_solver.
Qed.

Lemma serialized_cancel_all e s : serialized e -> serialized (cancel_all s e).
Proof.
  intros [Hone Hknown]. split.
  - intros target. unfold target_state; simpl. rewrite lookup_fmap.
    destruct (targets e !! target); simpl; rewrite map_size_empty; lia.
  - intros target Hnot. simpl in *. by rewrite lookup_fmap, Hknown.
Qed.

Lemma serialized_step e ev : serialized e -> serialized (step e ev).
Proof.
  intros He. destruct ev; simpl.
  - by apply serialized_issue.
  - by apply serialized_on_response.
  - by apply serialized_on_malformed_response.
  - by apply serialized_on_timeout.
  - by apply serialized_on_entity_online.
  - by apply serialized_on_entity_offline.
  - by apply (serialized_cancel_all e NetworkError) in He.
  - by apply serialized_cancel_all.
Qed.

Lemma serialized_initial : serialized initial.
Proof.
  split.
  - intros target. unfold target_state, initial; simpl.
    rewrite lookup_empty. simpl. rewrite map_size_empty. lia.
  - intros target _. apply lookup_empty.
Qed.

Lemma serialized_run trace : forall e, serialized e -> serialized (run trace e).
Proof.
  induction trace as [|ev trace IH]; intros e He; [done |].
  simpl. by apply IH, serialized_step.
Qed.

(** While a transaction is in flight for [target], a further command is
    appended to the target's queue and the engine does nothing else. *)
Lemma issue_behind_inflight e target c :
  serialized e -> inflight (target_state e target) <> ∅ ->
  let e' := issue target c e in
  wire e' = wire e /\
  completions e' = completions e /\
  inflight (target_state e' target) = inflight (target_state e target) /\
  serialization_queue (target_state e' target) =
    serialization_queue (target_state e target) ++ [c].
Proof.
  intros He Hbusy. simpl.
  assert (target ∈ discovery e) as Hin.
  { apply known_target; [done |]. unfold target_state in Hbusy.
    destruct (targets e !! target); [eauto | done]. }
  unfold issue. rewrite decide_True by done.
  unfold pump. rewrite target_state_set_target_eq. simpl.
  rewrite decide_False by done.
  by rewrite target_state_set_target_eq.
Qed.

End EngineInvariant.

Section EngineFifo.
Import Engine.

Lemma delete_only_inflight (m : gmap Z Transaction) id tx :
  size m <= 1 -> m !! id = Some tx -> delete id m = ∅.
Proof.
  intros Hsize Htx. apply map_size_empty_iff.
  rewrite map_size_delete, Htx. simpl. lia.
Qed.

(** When the response to the in-flight transaction arrives, its handler is
    invoked and the head of the queue becomes the transaction in flight. *)
Lemma response_starts_head_of_queue e target id tx status c q :
  serialized e ->
  inflight (target_state e target) !! id = Some tx ->
  serialization_queue (target_state e target) = c :: q ->
  transport_up e = true ->
  let e' := on_response target id (cmd_kind (tx_command tx)) status e in
  let id' := next_sequence_id (target_state e target) in
  inflight (target_state e' target) =
    {[ id' := {| tx_target := target; tx_sequence_id := id';
                 tx_attempts_remaining := 1; tx_command := c |} ]} /\
  serialization_queue (target_state e' target) = q /\
  wire e' = wire e ++ [{| frame_target := target; frame_sequence_id := id';
                          frame_kind := cmd_kind c |}] /\
  completions e' =
    completions e ++ [(cmd_completion_handler (tx_command tx), Responded status)].
Proof.
  intros He Htx Hq Hup. simpl.
  unfold on_response. rewrite Htx, decide_True by done.
  unfold finish, pump. rewrite !target_state_set_target_eq. simpl.
  rewrite (delete_only_inflight _ _ _ (proj1 He target) Htx).
  rewrite decide_True by done. rewrite Hq, Hup.
  rewrite !target_state_set_target_eq. simpl.
  unfold allocate_sequence_id. simpl. rewrite map_size_empty. simpl.
  by rewrite insert_empty.
Qed.

End EngineFifo.

(** C6: in every state the AECP engine reaches, at most one AEM transaction
    (indeed at most one AECP transaction of any dialect) is in flight for a
    target [T].  A further command issued to [T] while one is in flight is
    not transmitted: it joins the tail of [T]'s queue and the wire, the
    in-flight table and the handlers are left as they were; when the
    response to the in-flight transaction arrives, the head of the queue is
    the command transmitted next. *)
Theorem aem_at_most_one_inflight (trace : list Engine.Event) (T : Z) :
  let e := Engine.run trace Engine.initial in
  let ts := Engine.target_state e T in
  Engine.inflight_count Engine.Aem T e <= 1 /\
  size (Engine.inflight ts) <= 1 /\
  (forall c, Engine.inflight ts <> ∅ ->
     let e' := Engine.issue T c e in
     Engine.wire e' = Engine.wire e /\
     Engine.completions e' = Engine.completions e /\
     Engine.inflight (Engine.target_state e' T) = Engine.inflight ts /\
     Engine.serialization_queue (Engine.target_state e' T) =
       Engine.serialization_queue ts ++ [c]) /\
  (forall id tx status c q,
     Engine.inflight ts !! id = Some tx ->
     Engine.serialization_queue ts = c :: q ->
     Engine.transport_up e = true ->
     let e' := Engine.on_response T id (Engine.cmd_kind (Engine.tx_command tx)) status e in
     Engine.wire e' =
       Engine.wire e ++ [Engine.mkFrame T (Engine.next_sequence_id ts) (Engine.cmd_kind c)] /\
     Engine.serialization_queue (Engine.target_state e' T) = q /\
     size (Engine.inflight (Engine.target_state e' T)) = 1).
Proof.
  intros e ts.
  assert (Engine.serialized e) as He
    by apply serialized_run, serialized_initial.
  split; [| split; [| split]].
  - unfold Engine.inflight_count. etransitivity; [apply map_size_filter |].
    apply He.
  - apply He.
  - intros c Hbusy. by apply issue_behind_inflight.
  - intros id tx status c q Htx Hq Hup.
    destruct (response_starts_head_of_queue e T id tx status c q He Htx Hq Hup)
      as (Hfl & Hqueue & Hwire & _).
    split; [done | split; [done |]].
    rewrite Hfl. apply map_size_singleton.
Qed.

(** The invariant is not vacuous: with entity 7 online and one AEM command
    in flight, a second AEM command is queued and the wire is unchanged. *)
Lemma aem_at_most_one_inflight_witness :
  let e := Engine.run [Engine.EntityOnline 7; Engine.Issue 7 (Engine.mkCommand Engine.Aem 1)]
             Engine.initial in
  let e' := Engine.issue 7 (Engine.mkCommand Engine.Aem 2) e in
  Engine.wire e' = Engine.wire e /\
  Engine.serialization_queue (Engine.target_state e' 7) =
    Engine.serialization_queue (Engine.target_state e 7) ++ [Engine.mkCommand Engine.Aem 2].
Proof.
  intros e e'.
  destruct (aem_at_most_one_inflight
              [Engine.EntityOnline 7; Engine.Issue 7 (Engine.mkCommand Engine.Aem 1)] 7)
    as (_ & _ & Hqueued & _).
  destruct (Hqueued (Engine.mkCommand Engine.Aem 2)) as (Hwire & _ & _ & Hqueue).
  - apply map_size_non_empty_iff. vm_compute. discriminate.
  - split; [exact Hwire | exact Hqueue].
Defined.

(** Three commands to one target, then the response to the first: one frame
    per command leaves in issue order, never two at once. *)
Example engine_serializes_three_commands :
  let c1 := Engine.mkCommand Engine.Aem 1 in
  let c2 := Engine.mkCommand Engine.Aem 2 in
  let c3 := Engine.mkCommand Engine.Aa 3 in
  let issued := [Engine.EntityOnline 7; Engine.Issue 7 c1; Engine.Issue 7 c2; Engine.Issue 7 c3] in
  let e := Engine.run issued Engine.initial in
  let e' := Engine.run (issued ++ [Engine.Response 7 0 Engine.Aem 0]) Engine.initial in
  Engine.wire e = [Engine.mkFrame 7 0 Engine.Aem] /\
  Engine.serialization_queue (Engine.target_state e 7) = [c2; c3] /\
  Engine.wire e' = [Engine.mkFrame 7 0 Engine.Aem; Engine.mkFrame 7 1 Engine.Aem] /\
  Engine.completions e' = [(1, Engine.Responded 0)] /\
  Engine.serialization_queue (Engine.target_state e' 7) = [c3].
Proof. vm_compute. repeat split. Qed.

(** A target that never answers: the same PDU is sent twice, then the handler
    receives [TimedOut] and the next queued command is transmitted. *)
Example engine_retries_once_then_times_out :
  let c1 := Engine.mkCommand Engine.Aem 1 in
  let c2 := Engine.mkCommand Engine.Aem 2 in
  let e := Engine.run [Engine.EntityOnline 7; Engine.Issue 7 c1; Engine.Issue 7 c2;
                       Engine.Timeout 7 0; Engine.Timeout 7 0] Engine.initial in
  Engine.wire e = [Engine.mkFrame 7 0 Engine.Aem; Engine.mkFrame 7 0 Engine.Aem;
                   Engine.mkFrame 7 1 Engine.Aem] /\
  Engine.completions e = [(1, Engine.Failed Engine.TimedOut)].
Proof. vm_compute. repeat split. Qed.

(** A target that departs: the in-flight command and the queued one both
    complete with [UnknownEntity], in issue order. *)
Example engine_offline_cancels_pending :
  let c1 := Engine.mkCommand Engine.Aem 1 in
  let c2 := Engine.mkCommand Engine.Aem 2 in
  let e := Engine.run [Engine.EntityOnline 7; Engine.Issue 7 c1; Engine.Issue 7 c2;
                       Engine.EntityOffline 7] Engine.initial in
  Engine.completions e =
    [(1, Engine.Failed Engine.UnknownEntity); (2, Engine.Failed Engine.UnknownEntity)].
Proof. vm_compute. reflexivity. Qed.

(** ** The facade's command methods *)

Lemma command_methods_declarations :
  Forall (fun m =>
            Facade.method_noexcept m = true /\
            Facade.method_return m = Facade.Void /\
            Facade.result_status m = Some (Facade.status_enum_of (Facade.method_protocol m)))
         Facade.command_methods.
Proof. apply (bool_decide_unpack _). vm_compute. exact I. Qed.

Lemma noexcept_call_never_throws m body :
  Facade.method_noexcept m = true -> Facade.call m body <> Facade.Throws.
Proof. intros Hnoexcept. unfold Facade.call. rewrite Hnoexcept. by destruct body. Qed.

(** What the declarations alone give: every command method of the facade
    (84 AEM, 1 AA, 1 MVU and 6 ACMP methods of [ControllerEntity]) is
    declared [noexcept] and returns [void], so that a call through it never
    ends by an exception reaching the caller, whatever its body does; the
    only channel the declaration leaves for the outcome is the completion
    handler, whose [status] parameter is the status enum of the method's
    protocol. *)
Theorem facade_commands_never_throw :
  Forall (fun m =>
            Facade.method_noexcept m = true /\
            Facade.method_return m = Facade.Void /\
            Facade.result_status m = Some (Facade.status_enum_of (Facade.method_protocol m)) /\
            (forall body, Facade.call m body <> Facade.Throws))
         Facade.command_methods /\
  length (filter (fun m => Facade.method_protocol m = Facade.AEM) Facade.command_methods) = 84 /\
  length (filter (fun m => Facade.method_protocol m = Facade.AA) Facade.command_methods) = 1 /\
  length (filter (fun m => Facade.method_protocol m = Facade.MVU) Facade.command_methods) = 1 /\
  length (filter (fun m => Facade.method_protocol m = Facade.ACMP) Facade.command_methods) = 6 /\
  length Facade.command_methods = 92.
Proof.
  split; [| repeat split; vm_compute; reflexivity].
  eapply Forall_impl; [apply command_methods_declarations |].
  intros m (Hnoexcept & Hvoid & Hstatus).
  repeat split; try done.
  intros body. by apply noexcept_call_never_throws.
Qed.

(** ** The interface lock *)

Section InterfaceLockProperties.
Import InterfaceLock.

Lemma holds_Held caller m :
  holds caller m = true -> exists nested, m = Held caller nested.
Proof.
  destruct m as [|owner nested]; simpl; [done |].
  intros ->%bool_decide_eq_true. by exists nested.
Qed.

Lemma lock_by_owner caller nested :
  lock caller (Held caller nested) = Acquired (Held caller (S nested)).
Proof. simpl. by rewrite decide_True. Qed.

Lemma lock_by_other caller other nested :
  other <> caller -> lock other (Held caller nested) = Blocks.
Proof. intros Hne. simpl. rewrite decide_False; [done | by intros ->]. Qed.

Lemma unlock_by_owner caller nested :
  unlock caller (Held caller (S nested)) = Some (Held caller nested).
Proof. simpl. by rewrite decide_True. Qed.

(** A well-nested run of the owner never waits and ends [depth'] levels
    above the level [base] it started from. *)
Lemma exec_of_owner caller base ops :
  forall depth depth',
    nesting depth ops = Some depth' ->
    exec caller ops (Held caller (base + depth)) = Some (Held caller (base + depth')).
Proof.
  induction ops as [|[|] ops IH]; intros depth depth' Hnest; simpl in Hnest.
  - by injection Hnest as ->.
  - cbn [exec]. rewrite lock_by_owner.
    replace (S (base + depth)) with (base + S depth) by lia. by apply IH.
  - destruct depth as [|d]; [done |].
    cbn [exec]. replace (base + S d) with (S (base + d)) by lia.
    rewrite unlock_by_owner. by apply IH.
Qed.

End InterfaceLockProperties.

(** C8: the lock behind [lock]/[unlock] is reentrant.  A thread that holds
    it and then runs any well-nested sequence of further [lock] and [unlock]
    calls (engine calls that take the lock themselves, handlers invoked in
    between) never waits; in the state it reaches it still holds the lock
    and every other thread that calls [lock] waits; once the sequence is
    balanced the lock is back in the state the thread started from. *)
Theorem interface_lock_is_reentrant
    (caller : InterfaceLock.thread) (m : InterfaceLock.t)
    (ops : list InterfaceLock.Op) (depth : nat) :
  InterfaceLock.holds caller m = true ->
  InterfaceLock.nesting 0 ops = Some depth ->
  exists m',
    InterfaceLock.exec caller ops m = Some m' /\
    InterfaceLock.holds caller m' = true /\
    (forall other, other <> caller -> InterfaceLock.lock other m' = InterfaceLock.Blocks) /\
    (depth = 0 -> m' = m).
Proof.
  intros [nested ->]%holds_Held Hnest.
  exists (InterfaceLock.Held caller (nested + depth)).
  split; [| split; [| split]].
  - replace nested with (nested + 0) at 1 by lia. by apply exec_of_owner.
  - simpl. by apply bool_decide_eq_true.
  - intros other Hne. by apply lock_by_other.
  - intros ->. f_equal. lia.
Qed.

(** Thread 1 holds the lock, makes an engine call that locks again, and a
    handler invoked inside locks a third time. *)
Lemma interface_lock_is_reentrant_witness :
  exists m',
    InterfaceLock.exec 1
      [InterfaceLock.DoLock; InterfaceLock.DoLock; InterfaceLock.DoUnlock; InterfaceLock.DoUnlock]
      (InterfaceLock.Held 1 0) = Some m' /\
    InterfaceLock.holds 1 m' = true /\
    (forall other, other <> 1 -> InterfaceLock.lock other m' = InterfaceLock.Blocks) /\
    (0 = 0 -> m' = InterfaceLock.Held 1 0).
Proof.
  apply (interface_lock_is_reentrant 1 (InterfaceLock.Held 1 0)
           [InterfaceLock.DoLock; InterfaceLock.DoLock;
            InterfaceLock.DoUnlock; InterfaceLock.DoUnlock] 0).
  - reflexivity.
  - reflexivity.
Defined.

(** A second thread that asks for the held lock waits, and a thread may not
    unlock what another one holds. *)
Example interface_lock_excludes_others :
  InterfaceLock.lock 2 (InterfaceLock.Held 1 0) = InterfaceLock.Blocks /\
  InterfaceLock.exec 2 [InterfaceLock.DoLock] (InterfaceLock.Held 1 3) = None /\
  InterfaceLock.unlock 2 (InterfaceLock.Held 1 0) = None /\
  InterfaceLock.exec 1 [InterfaceLock.DoUnlock] (InterfaceLock.Held 1 0) = Some InterfaceLock.Free.
Proof. repeat split. Qed.

(** ** Algebra of the status fold *)

Section FoldAlgebra.
Context {T : Type} `{EqDecision T}.
Variable success : T.
Variable not_ : T -> bool.
Variable or_ : T -> T -> T.
Hypothesis not_iff : forall s, not_ s = true <-> s <> success.
Hypothesis or_failure : forall a b, a <> success -> or_ a b = a.
Hypothesis or_success : forall b, or_ success b = b.

Lemma or_cases a b : or_ a b = if decide (a = success) then b else a.
Proof.
  destruct (decide (a = success)) as [->|Ha]; [apply or_success | by apply or_failure].
Qed.

Lemma not_cases s : not_ s = bool_decide (s <> success).
Proof.
  destruct (not_ s) eqn:Hs; symmetry.
  - by apply bool_decide_eq_true, not_iff.
  - apply bool_decide_eq_false. intros Hne%not_iff. congruence.
Qed.

Lemma fold_assoc : Assoc (=) or_.
Proof.
  intros a b c. rewrite !or_cases.
  destruct (decide (a = success)) as [->|Ha].
  - done.
  - by rewrite decide_False.
Qed.

Lemma fold_idemp : IdemP (=) or_.
Proof. intros a. rewrite or_cases. by case_decide. Qed.

Lemma fold_not a b : not_ (or_ a b) = (not_ a || not_ b)%bool.
Proof.
  rewrite or_cases, !not_cases. destruct (decide (a = success)) as [->|Ha].
  - by rewrite (bool_decide_eq_false_2 (success <> success)) by (intros Hn; by apply Hn).
  - by rewrite (bool_decide_eq_true_2 (a <> success)).
Qed.

Lemma fold_success_iff a b : or_ a b = success <-> a = success /\ b = success.
Proof.
  rewrite or_cases. destruct (decide (a = success)) as [->|Ha].
  - split; [by intros -> | by intros [_ ->]].
  - split; [by intros -> | by intros [-> _]].
Qed.

Lemma fold_operand a b : or_ a b = a \/ or_ a b = b.
Proof. rewrite or_cases. case_decide; auto. Qed.

Lemma fold_comm_iff a b :
  or_ a b = or_ b a <-> a = b \/ a = success \/ b = success.
Proof.
  rewrite !or_cases.
  destruct (decide (a = success)) as [->|Ha], (decide (b = success)) as [->|Hb];
    intuition congruence.
Qed.

Lemma fold_sticky l : forall a, a <> success -> fold_left or_ l a = a.
Proof.
  induction l as [|b l IH]; intros a Ha; [done |].
  simpl. rewrite or_failure by done. by apply IH.
Qed.

Lemma fold_all_success l :
  forall a, fold_left or_ l a = success <-> Forall (eq success) (a :: l).
Proof.
  induction l as [|b l IH]; intros a; simpl.
  - rewrite Forall_singleton. split; by intros ->.
  - rewrite IH, !Forall_cons. split.
    + intros [Hab Hl]. symmetry in Hab. by apply fold_success_iff in Hab as [-> ->].
    + intros (<- & <- & Hl). split; [| done]. symmetry. by apply fold_success_iff.
Qed.

Lemma fails_when_either_fails_holds `{OperatorNot T} :
  (forall s : T, operator_not s = not_ s) ->
  FoldLaws.fails_when_either_fails success or_.
Proof.
  intros Hnot. split; [| split].
  - intros a b. rewrite !Hnot. apply fold_not.
  - apply fold_success_iff.
  - apply fold_operand.
Qed.

End FoldAlgebra.

(** The three facts the lemmas above need, for each of the four enums. *)
Ltac status_enum_facts :=
  first
    [ intros ?; apply not_true_iff
    | intros ? ?; apply or_of_failure with (not_ := operator_not)
    | intros ?; apply or_of_success with (not_ := operator_not) ];
  solve
    [ done
    | apply AemCommandStatus_value_inj
    | apply AaCommandStatus_value_inj
    | apply MvuCommandStatus_value_inj
    | apply ControlStatus_value_inj ].

(** The three definitional facts of the section [FirstFailure], likewise. *)
Ltac status_enum_defs :=
  solve
    [ done
    | apply AemCommandStatus_value_inj
    | apply AaCommandStatus_value_inj
    | apply MvuCommandStatus_value_inj
    | apply ControlStatus_value_inj ].

(** X1: [operator|] on [AemCommandStatus], [AaCommandStatus] and
    [MvuCommandStatus] and the value-returning [operator|=] on
    [ControlStatus] are associative and idempotent: a chain [a | b | c] may
    be grouped either way, and folding a status with itself changes
    nothing. *)
Theorem status_fold_assoc_idemp :
  (Assoc (=) (operator_or (T := AemCommandStatus.t)) /\
   IdemP (=) (operator_or (T := AemCommandStatus.t))) /\
  (Assoc (=) (operator_or (T := AaCommandStatus.t)) /\
   IdemP (=) (operator_or (T := AaCommandStatus.t))) /\
  (Assoc (=) (operator_or (T := MvuCommandStatus.t)) /\
   IdemP (=) (operator_or (T := MvuCommandStatus.t))) /\
  (Assoc (=) ControlStatus_or_assign_value /\
   IdemP (=) ControlStatus_or_assign_value).
Proof.
  repeat split.
  - apply (fold_assoc AemCommandStatus.Success); status_enum_facts.
  - apply (fold_idemp AemCommandStatus.Success); status_enum_facts.
  - apply (fold_assoc AaCommandStatus.Success); status_enum_facts.
  - apply (fold_idemp AaCommandStatus.Success); status_enum_facts.
  - apply (fold_assoc MvuCommandStatus.Success); status_enum_facts.
  - apply (fold_idemp MvuCommandStatus.Success); status_enum_facts.
  - apply (fold_assoc ControlStatus.Success); status_enum_facts.
  - apply (fold_idemp ControlStatus.Success); status_enum_facts.
Qed.

(** X2: for [operator|] on [AemCommandStatus], [AaCommandStatus] and
    [MvuCommandStatus] and the value-returning [operator|=] on
    [ControlStatus]: [!(a | b)] equals [!a || !b], so the fold is [Success]
    exactly when both operands are; and the fold returns one of its two
    operands, never a third status. *)
Theorem status_fold_fails_when_either_fails :
  FoldLaws.fails_when_either_fails AemCommandStatus.Success (operator_or (T := AemCommandStatus.t)) /\
  FoldLaws.fails_when_either_fails AaCommandStatus.Success (operator_or (T := AaCommandStatus.t)) /\
  FoldLaws.fails_when_either_fails MvuCommandStatus.Success (operator_or (T := MvuCommandStatus.t)) /\
  FoldLaws.fails_when_either_fails ControlStatus.Success ControlStatus_or_assign_value.
Proof.
  split; [| split; [| split]].
  - apply (fails_when_either_fails_holds _ operator_not); try status_enum_facts; done.
  - apply (fails_when_either_fails_holds _ operator_not); try status_enum_facts; done.
  - apply (fails_when_either_fails_holds _ operator_not); try status_enum_facts; done.
  - apply (fails_when_either_fails_holds _ operator_not); try status_enum_facts; done.
Qed.

(** X3: the fold is not commutative.  On each of the four enums [a | b] and
    [b | a] agree exactly when [a] and [b] are equal or one of them is
    [Success]; two different failures give different results in the two
    orders. *)
Theorem status_fold_commutes_only_trivially :
  FoldLaws.commutes_only_trivially AemCommandStatus.Success (operator_or (T := AemCommandStatus.t)) /\
  FoldLaws.commutes_only_trivially AaCommandStatus.Success (operator_or (T := AaCommandStatus.t)) /\
  FoldLaws.commutes_only_trivially MvuCommandStatus.Success (operator_or (T := MvuCommandStatus.t)) /\
  FoldLaws.commutes_only_trivially ControlStatus.Success ControlStatus_or_assign_value.
Proof.
  split; [| split; [| split]]; intros a b.
  - apply (fold_comm_iff AemCommandStatus.Success); status_enum_facts.
  - apply (fold_comm_iff AaCommandStatus.Success); status_enum_facts.
  - apply (fold_comm_iff MvuCommandStatus.Success); status_enum_facts.
  - apply (fold_comm_iff ControlStatus.Success); status_enum_facts.
Qed.

(** Two different failures, folded in the two orders. *)
Example status_fold_order_matters :
  operator_or AemCommandStatus.TimedOut AemCommandStatus.BadArguments = AemCommandStatus.TimedOut /\
  operator_or AemCommandStatus.BadArguments AemCommandStatus.TimedOut = AemCommandStatus.BadArguments.
Proof. split; reflexivity. Qed.

(** X4: [operator|=] on [AemCommandStatus], [AaCommandStatus] and
    [MvuCommandStatus], the three enums for which it has a single overload
    (taking [lhs] by reference).  Over a run
    [status |= s1; ...; status |= sn] a failure stored in [status] is never
    overwritten, the final value is the first failure among the initial
    value and [s1 ... sn], and it is [Success] exactly when the initial
    value and every [si] are [Success].  ([ControlStatus] is left out: its
    two overloads make [status |= s] ambiguous.) *)
Theorem status_or_assign_accumulates :
  FoldLaws.accumulates_first_failure AemCommandStatus.Success
    (operator_or_assign (T := AemCommandStatus.t)) /\
  FoldLaws.accumulates_first_failure AaCommandStatus.Success
    (operator_or_assign (T := AaCommandStatus.t)) /\
  FoldLaws.accumulates_first_failure MvuCommandStatus.Success
    (operator_or_assign (T := MvuCommandStatus.t)).
Proof.
  split; [| split]; (split; [| split]); intros a l.
  - apply (fold_sticky AemCommandStatus.Success); status_enum_facts.
  - apply (fold_left_first_failure _ operator_not); status_enum_defs.
  - apply (fold_all_success AemCommandStatus.Success operator_not); status_enum_facts.
  - apply (fold_sticky AaCommandStatus.Success); status_enum_facts.
  - apply (fold_left_first_failure _ operator_not); status_enum_defs.
  - apply (fold_all_success AaCommandStatus.Success operator_not); status_enum_facts.
  - apply (fold_sticky MvuCommandStatus.Success); status_enum_facts.
  - apply (fold_left_first_failure _ operator_not); status_enum_defs.
  - apply (fold_all_success MvuCommandStatus.Success operator_not); status_enum_facts.
Qed.

(** ** Algebra of [operator|=] on [ProtocolInterface::Error] *)

Lemma lor_absorbs_iff (x y : Z) : Z.lor x y = x <-> Z.land x y = y.
Proof.
  split; intros Heq; apply Z.bits_inj'; intros n _;
    apply (f_equal (fun z => Z.testbit z n)) in Heq;
    rewrite ?Z.lor_spec, ?Z.land_spec in *;
    by destruct (Z.testbit x n), (Z.testbit y n).
Qed.

Lemma Error_not_or_assign (a b : ProtocolInterface.Error.t) :
  (! (operator_or_assign a b)) = ((! a) && (! b))%bool.
Proof.
  destruct a as [x], b as [y].
  unfold operator_not, ProtocolInterface.Error_not, operator_or_assign,
    ProtocolInterface.Error_or_assign, to_underlying, ProtocolInterface.Error_underlying.
  simpl.
  destruct (Z.eqb_spec (Z.lor x y) 0) as [Hor|Hor].
  - apply Z.lor_eq_0_iff in Hor as [-> ->]. reflexivity.
  - destruct (Z.eqb_spec x 0) as [->|Hx]; [| reflexivity].
    destruct (Z.eqb_spec y 0) as [->|Hy]; [| reflexivity].
    by destruct Hor.
Qed.

(** X5: [operator|=] on [ProtocolInterface::Error] keeps what [operator!]
    tests: [!(a |= b)] equals [!a && !b], and after a run
    [error |= e1; ...; error |= en] the stored value is [NoError] exactly
    when the initial value and every [ei] are [NoError]. *)
Theorem error_or_assign_keeps_success_test :
  (forall a b : ProtocolInterface.Error.t,
     (! (operator_or_assign a b)) = ((! a) && (! b))%bool) /\
  (forall (l : list ProtocolInterface.Error.t) (a : ProtocolInterface.Error.t),
     (! (fold_left operator_or_assign l a)) = forallb operator_not (a :: l)) /\
  (forall (l : list ProtocolInterface.Error.t) (a : ProtocolInterface.Error.t),
     fold_left operator_or_assign l a = ProtocolInterface.Error.NoError <->
     Forall (eq ProtocolInterface.Error.NoError) (a :: l)).
Proof.
  assert (Hfold : forall (l : list ProtocolInterface.Error.t) a,
            (! (fold_left operator_or_assign l a)) = forallb operator_not (a :: l)).
  { induction l as [|b l IH]; intros a.
    - simpl. by rewrite andb_true_r.
    - cbn [fold_left]. rewrite IH. cbn [forallb].
      by rewrite Error_not_or_assign, andb_assoc. }
  split; [exact Error_not_or_assign | split; [exact Hfold |]].
  intros l a.
  assert (Hnot : forall e : ProtocolInterface.Error.t,
            (! e) = true <-> ProtocolInterface.Error.NoError = e).
  { intros [v]. unfold operator_not, ProtocolInterface.Error_not, to_underlying,
      ProtocolInterface.Error_underlying. simpl. rewrite Z.eqb_eq.
    split; [by intros -> | by intros [= <-]]. }
  rewrite Forall_forall. setoid_rewrite <- Hnot.
  rewrite <- (symmetry_iff (=) ProtocolInterface.Error.NoError), <- Hnot, Hfold.
  rewrite forallb_forall. split; intros Hall e He; apply Hall; by apply list_elem_of_In.
Qed.

(** X6: [operator|=] on [ProtocolInterface::Error] is commutative,
    associative and idempotent, and [NoError] is its identity on both
    sides: the value accumulated over several errors does not depend on
    their order or grouping. *)
Theorem error_or_assign_semilattice :
  Comm (=) (operator_or_assign (T := ProtocolInterface.Error.t)) /\
  Assoc (=) (operator_or_assign (T := ProtocolInterface.Error.t)) /\
  IdemP (=) (operator_or_assign (T := ProtocolInterface.Error.t)) /\
  LeftId (=) ProtocolInterface.Error.NoError (operator_or_assign (T := ProtocolInterface.Error.t)) /\
  RightId (=) ProtocolInterface.Error.NoError (operator_or_assign (T := ProtocolInterface.Error.t)).
Proof.
  unfold operator_or_assign, ProtocolInterface.Error_or_assign, to_underlying,
    ProtocolInterface.Error_underlying.
  repeat split.
  - intros [x] [y]. simpl. by rewrite Z.lor_comm.
  - intros [x] [y] [z]. simpl. by rewrite Z.lor_assoc.
  - intros [x]. simpl. by rewrite Z.lor_diag.
  - intros [x]. simpl. by rewrite Z.lor_0_l.
  - intros [x]. simpl. by rewrite Z.lor_0_r.
Qed.

(** X7: when [operator|=] on [ProtocolInterface::Error] keeps [lhs].  The
    stored value equals the original [lhs] exactly when every bit of [rhs]
    is already set in [lhs]; it is the first failure of [lhs], [rhs] exactly
    when [lhs] is [NoError] or that bit condition holds.  For two
    enumerators the stored integer stays within 0..127. *)
Theorem error_or_assign_keeps_lhs_iff :
  (forall a b : ProtocolInterface.Error.t,
     operator_or_assign a b = a <->
     Z.land (to_underlying a) (to_underlying b) = to_underlying b) /\
  (forall a b : ProtocolInterface.Error.t,
     operator_or_assign a b = Normative.first_failure ProtocolInterface.Error.NoError [a; b] <->
     a = ProtocolInterface.Error.NoError \/
     Z.land (to_underlying a) (to_underlying b) = to_underlying b) /\
  (forall e1 e2 : ProtocolInterface.Error.enumerator,
     0 <= to_underlying (operator_or_assign (ProtocolInterface.Error.enum e1)
                           (ProtocolInterface.Error.enum e2)) <= 127)%Z.
Proof.
  assert (Hkeep : forall a b : ProtocolInterface.Error.t,
            operator_or_assign a b = a <->
            Z.land (to_underlying a) (to_underlying b) = to_underlying b).
  { intros [x] [y]. unfold operator_or_assign, ProtocolInterface.Error_or_assign,
      to_underlying, ProtocolInterface.Error_underlying. simpl.
    rewrite <- lor_absorbs_iff. split; [by intros [= ->] | by intros ->]. }
  split; [exact Hkeep | split].
  - intros a b. unfold Normative.first_failure.
    destruct (decide (a = ProtocolInterface.Error.NoError)) as [->|Ha].
    + rewrite Error_or_assign_NoError_left.
      rewrite filter_cons_False by (intros Hn; by apply Hn).
      split; [by left |]. intros _.
      destruct (decide (b = ProtocolInterface.Error.NoError)) as [->|Hb].
      * by rewrite filter_cons_False by (intros Hn; by apply Hn).
      * by rewrite filter_cons_True.
    + rewrite filter_cons_True by done. simpl. rewrite Hkeep.
      split; [by right | by intros [? | ?]].
  - intros e1 e2. destruct e1, e2; vm_compute; split; discriminate.
Qed.

(** ** Enumerator names and codes across the four enums *)

(** X8: an enumerator name shared by several of the four command status
    enums stands for the same code in all of them ([Success] is 0
    everywhere, each library status has one code), with two exceptions:
    [BadArguments] (7 in AEM, 2 in MVU) and [NotSupported] (11 in AEM, 31 in
    ACMP).  Conversely a library code has the same name in every enum that
    declares it. *)
Theorem shared_names_share_codes :
  (forall x y, StatusNames.name x = StatusNames.name y ->
     CommandStatus_value x = CommandStatus_value y \/
     StatusNames.name x = "BadArguments"%string \/
     StatusNames.name x = "NotSupported"%string) /\
  (forall x y, CommandStatus_origin x = LibraryCode ->
     CommandStatus_value x = CommandStatus_value y ->
     StatusNames.name x = StatusNames.name y) /\
  (forall x, StatusNames.name x = "Success"%string <-> CommandStatus_value x = 0%Z) /\
  (CommandStatus_value (OfAem AemCommandStatus.BadArguments) = 7%Z /\
   CommandStatus_value (OfMvu MvuCommandStatus.BadArguments) = 2%Z /\
   CommandStatus_value (OfAem AemCommandStatus.NotSupported) = 11%Z /\
   CommandStatus_value (OfControl ControlStatus.NotSupported) = 31%Z).
Proof.
  split; [| split; [| split; [| repeat split]]].
  - intros x y.
    destruct x as [[]|[]|[]|[]]; destruct y as [[]|[]|[]|[]]; simpl;
      intros Hname; first [discriminate Hname | by left | by right; left | by right; right].
  - intros x y.
    destruct x as [[]|[]|[]|[]]; simpl; intros Hlib; try discriminate Hlib;
      destruct y as [[]|[]|[]|[]]; simpl; intros Hvalue;
      first [discriminate Hvalue | reflexivity].
  - intros x. destruct x as [[]|[]|[]|[]]; simpl; split; intros H;
      first [discriminate H | reflexivity].
Qed.

(** X9: within each of the five enums distinct enumerators have distinct
    codes, so comparing two statuses by their underlying integers (as
    [operator!] does) is comparing the enumerators. *)
Theorem enumerator_codes_are_injective :
  (forall a b : AemCommandStatus.t,
     (to_underlying a =? to_underlying b)%Z = bool_decide (a = b)) /\
  (forall a b : AaCommandStatus.t,
     (to_underlying a =? to_underlying b)%Z = bool_decide (a = b)) /\
  (forall a b : MvuCommandStatus.t,
     (to_underlying a =? to_underlying b)%Z = bool_decide (a = b)) /\
  (forall a b : ControlStatus.t,
     (to_underlying a =? to_underlying b)%Z = bool_decide (a = b)) /\
  (forall a b : ProtocolInterface.Error.enumerator,
     (ProtocolInterface.Error.value a =? ProtocolInterface.Error.value b)%Z = bool_decide (a = b)).
Proof.
  assert (Hgen : forall (T : Type) `{EqDecision T} (f : T -> Z),
            Inj (=) (=) f -> forall a b, (f a =? f b)%Z = bool_decide (a = b)).
  { intros T Hdec f Hinj a b. destruct (Z.eqb_spec (f a) (f b)) as [Heq|Hne]; symmetry.
    - by apply bool_decide_eq_true, Hinj.
    - apply bool_decide_eq_false. by intros ->. }
  repeat split; intros a b; apply Hgen.
  - apply AemCommandStatus_value_inj.
  - apply AaCommandStatus_value_inj.
  - apply MvuCommandStatus_value_inj.
  - apply ControlStatus_value_inj.
  - apply Error_value_inj.
Qed.

(** ** Members of the protocol interface and the callbacks *)

Lemma member_call_noexcept m body :
  Members.member_noexcept m = true -> Members.member_call m body <> Facade.Throws.
Proof. intros Hn. unfold Members.member_call. rewrite Hn. by destruct body. Qed.

(** X10: every member function of [ProtocolInterface] other than its two
    constructors is declared [noexcept], so a call through it never ends by
    an exception reaching the caller; the constructors are not, and an
    exception thrown while constructing reaches the caller.  The thirteen
    operations from [registerLocalEntity] to [sendAcmpResponse] report by
    returning an [Error]; of the pure virtual operations only [shutdown],
    [lock] and [unlock] return [void]. *)
Theorem protocol_interface_reports_by_value :
  Forall (fun m =>
            if decide (Members.member_kind m = Members.Constructor)
            then Members.member_noexcept m = false /\
                 Members.member_call m Facade.Throws = Facade.Throws
            else Members.member_noexcept m = true /\
                 forall body, Members.member_call m body <> Facade.Throws)
         (Members.declared_in Members.InProtocolInterface) /\
  Members.member_name <$>
    filter (fun m => Members.member_return m = Members.RError)
      (Members.declared_in Members.InProtocolInterface) =
    ["registerLocalEntity"; "unregisterLocalEntity"; "enableEntityAdvertising";
     "disableEntityAdvertising"; "discoverRemoteEntities"; "discoverRemoteEntity";
     "sendAdpMessage"; "sendAecpMessage"; "sendAcmpMessage"; "sendAecpCommand";
     "sendAecpResponse"; "sendAcmpCommand"; "sendAcmpResponse"]%string /\
  Members.member_name <$>
    filter (fun m => Members.member_kind m = Members.PureVirtual /\
                     Members.member_return m = Members.RVoid)
      (Members.declared_in Members.InProtocolInterface) =
    ["shutdown"; "lock"; "unlock"]%string /\
  Forall (fun m => Members.member_return m = Members.RError ->
                   Members.member_kind m = Members.PureVirtual)
         Members.members.
Proof.
  split; [| split; [reflexivity | split; [reflexivity |]]].
  - assert (Hdecl : Forall (fun m =>
              if decide (Members.member_kind m = Members.Constructor)
              then Members.member_noexcept m = false
              else Members.member_noexcept m = true)
              (Members.declared_in Members.InProtocolInterface)).
    { apply Forall_forall. intros m Hm.
      assert (Hb : bool_decide (Members.member_kind m = Members.Constructor) =
                   negb (Members.member_noexcept m)).
      { revert m Hm. apply Forall_forall. apply (bool_decide_unpack _). vm_compute. exact I. }
      case_decide as Hk.
      - rewrite bool_decide_eq_true_2 in Hb by done. by destruct (Members.member_noexcept m).
      - rewrite bool_decide_eq_false_2 in Hb by done. by destruct (Members.member_noexcept m). }
    eapply Forall_impl; [exact Hdecl |]. intros m Hm. simpl in Hm.
    case_decide.
    + split; [done |]. unfold Members.member_call. by rewrite Hm.
    + split; [done |]. intros body. by apply member_call_noexcept.
  - apply (bool_decide_unpack _). vm_compute. exact I.
Qed.

(** X11: every callback of [ProtocolInterface::Observer] (11) and of
    [ControllerEntity::Delegate] (44) returns [void] and is declared
    [noexcept]: no exception of a callback reaches the code that notifies.
    All of them have the empty default body except
    [Observer::onTransportError], the one callback an observer has to
    implement. *)
Theorem callbacks_are_noexcept :
  Forall (fun m =>
            Members.member_return m = Members.RVoid /\
            Members.member_noexcept m = true /\
            (forall body, Members.member_call m body <> Facade.Throws))
         (Members.declared_in Members.InObserver ++ Members.declared_in Members.InDelegate) /\
  Members.member_name <$>
    filter (fun m => Members.member_kind m <> Members.VirtualDefault)
      (Members.declared_in Members.InObserver ++ Members.declared_in Members.InDelegate) =
    ["onTransportError"]%string /\
  Members.member_kind <$> Members.declared_in Members.InObserver =
    Members.PureVirtual :: replicate 10 Members.VirtualDefault /\
  Members.member_kind <$> Members.declared_in Members.InDelegate =
    replicate 44 Members.VirtualDefault.
Proof.
  split; [| repeat split; vm_compute; reflexivity].
  assert (Hdecl : Forall (fun m =>
            Members.member_return m = Members.RVoid /\ Members.member_noexcept m = true)
            (Members.declared_in Members.InObserver ++ Members.declared_in Members.InDelegate)).
  { apply (bool_decide_unpack _). vm_compute. exact I. }
  eapply Forall_impl; [exact Hdecl |]. intros m [Hvoid Hnoexcept].
  repeat split; try done. intros body. by apply member_call_noexcept.
Qed.

(** ** The controller: every call reaches its handler *)

Section ControllerConservation.
Import Engine.

Local Abbreviation handlers_of l := (cmd_completion_handler <$> l) (only parsing).
Local Abbreviation others e target :=
  (concat (pending <$> (map_to_list (delete target (targets e))).*2)) (only parsing).
Local Abbreviation ids e :=
  ((cmd_completion_handler <$> Controller.aecp_pending e) ++ (completions e).*1)
  (only parsing).

Lemma concat_fmap_Permutation {A B} (f : A -> list B) (l l' : list A) :
  l ≡ₚ l' -> concat (f <$> l) ≡ₚ concat (f <$> l').
Proof.
  induction 1 as [|x l l' _ IH|x y l|l l' l'' _ IH1 _ IH2]; simpl.
  - done.
  - by rewrite IH.
  - rewrite !app_assoc. f_equiv. apply Permutation_app_comm.
  - by etransitivity.
Qed.

Lemma pending_fresh_target : pending fresh_target = [].
Proof. unfold pending. simpl. by rewrite map_to_list_empty. Qed.

(** The pending commands, with those of one target put first. *)
Lemma aecp_pending_split e target :
  Controller.aecp_pending e ≡ₚ pending (target_state e target) ++ others e target.
Proof.
  unfold Controller.aecp_pending, target_state.
  destruct (targets e !! target) as [ts|] eqn:Hts; simpl.
  - rewrite <- (map_to_list_delete _ _ _ Hts) at 1. done.
  - rewrite pending_fresh_target. simpl. by rewrite (delete_id _ _ Hts).
Qed.

Lemma aecp_pending_set_target e target ts :
  Controller.aecp_pending (set_target target ts e) ≡ₚ pending ts ++ others e target.
Proof.
  unfold Controller.aecp_pending. simpl.
  rewrite <- insert_delete_eq.
  etransitivity.
  - apply concat_fmap_Permutation, fmap_Permutation, map_to_list_insert, lookup_delete_eq.
  - done.
Qed.

Lemma fail_with_handlers s (l : list Command) :
  (fail_with s <$> l).*1 = handlers_of l.
Proof. induction l as [|c l IH]; [done |]. cbn. f_equal. exact IH. Qed.

Ltac engine_fields :=
  cbn [targets completions transmit complete set_target inflight
       serialization_queue next_sequence_id].

Lemma ids_pump e target : ids (pump target e) ≡ₚ ids e.
Proof.
  unfold pump.
  destruct (decide (inflight (target_state e target) = ∅)) as [Hempty|]; [| done].
  destruct (serialization_queue (target_state e target)) as [|c q] eqn:Hq; [done |].
  assert (Hbefore : Controller.aecp_pending e ≡ₚ (c :: q) ++ others e target).
  { rewrite (aecp_pending_split e target). unfold pending.
    by rewrite Hempty, map_to_list_empty, Hq. }
  destruct (transport_up e).
  - rewrite aecp_pending_set_target, Hbefore. unfold pending. simpl.
    by rewrite Hempty, insert_empty, map_to_list_singleton.
  - rewrite aecp_pending_set_target, Hbefore. unfold pending. engine_fields.
    rewrite Hempty, map_to_list_empty.
    rewrite !fmap_app, fail_with_handlers. cbn. solve_Permutation.
Qed.

Lemma ids_set_queue e target c :
  let ts := target_state e target in
  ids (set_target target
         {| next_sequence_id := next_sequence_id ts; inflight := inflight ts;
            serialization_queue := serialization_queue ts ++ [c] |} e)
  ≡ₚ cmd_completion_handler c :: ids e.
Proof.
  intros ts. rewrite aecp_pending_set_target, (aecp_pending_split e target).
  unfold pending. simpl. fold ts. rewrite !fmap_app. cbn. solve_Permutation.
Qed.

Lemma ids_issue e target c :
  ids (issue target c e) ≡ₚ cmd_completion_handler c :: ids e.
Proof.
  unfold issue. case_decide.
  - rewrite ids_pump. apply ids_set_queue.
  - simpl. rewrite fmap_app. cbn. solve_Permutation.
Qed.

Lemma ids_finish e target id tx result :
  inflight (target_state e target) !! id = Some tx ->
  ids (finish target id tx result e) ≡ₚ ids e.
Proof.
  intros Htx. unfold finish. rewrite ids_pump.
  rewrite aecp_pending_set_target, (aecp_pending_split e target).
  unfold pending. engine_fields.
  rewrite <- (map_to_list_delete _ _ _ Htx).
  rewrite !fmap_app, !fmap_cons. cbn. solve_Permutation.
Qed.

Lemma ids_on_response e target id kind status :
  ids (on_response target id kind status e) ≡ₚ ids e.
Proof.
  unfold on_response.
  destruct (inflight (target_state e target) !! id) as [tx|] eqn:Htx; [| done].
  case_decide; [| done]. by apply ids_finish.
Qed.

Lemma ids_on_malformed_response e target id :
  ids (on_malformed_response target id e) ≡ₚ ids e.
Proof.
  unfold on_malformed_response.
  destruct (inflight (target_state e target) !! id) as [tx|] eqn:Htx; [| done].
  by apply ids_finish.
Qed.

Lemma ids_on_timeout e target id : ids (on_timeout target id e) ≡ₚ ids e.
Proof.
  unfold on_timeout.
  destruct (inflight (target_state e target) !! id) as [tx|] eqn:Htx; [| done].
  destruct (tx_attempts_remaining tx) as [|n]; [by apply ids_finish |].
  rewrite aecp_pending_set_target, (aecp_pending_split e target).
  unfold pending. engine_fields.
  rewrite <- insert_delete_eq.
  rewrite (map_to_list_insert (delete id (inflight (target_state e target))))
    by apply lookup_delete_eq.
  rewrite <- (map_to_list_delete _ _ _ Htx). done.
Qed.

Lemma ids_on_entity_offline e target : ids (on_entity_offline target e) ≡ₚ ids e.
Proof.
  rewrite (aecp_pending_split e target).
  unfold Controller.aecp_pending. simpl.
  rewrite !fmap_app, fail_with_handlers. solve_Permutation.
Qed.

Lemma aecp_pending_cancel_all e s : Controller.aecp_pending (cancel_all s e) = [].
Proof.
  unfold Controller.aecp_pending. cbn [targets cancel_all].
  rewrite map_to_list_fmap.
  induction (map_to_list (targets e)) as [|[k ts] l IH]; [done |].
  rewrite !fmap_cons. cbn [concat snd prod_map].
  unfold pending at 1. cbn [inflight serialization_queue].
  rewrite map_to_list_empty. exact IH.
Qed.

Lemma ids_cancel_all e s : ids (cancel_all s e) ≡ₚ ids e.
Proof.
  rewrite aecp_pending_cancel_all. cbn [completions cancel_all].
  change (concat (pending <$> (map_to_list (targets e)).*2))
    with (Controller.aecp_pending e).
  rewrite fmap_app, fail_with_handlers. cbn. solve_Permutation.
Qed.

Lemma ids_on_transport_error e : ids (on_transport_error e) ≡ₚ ids e.
Proof. exact (ids_cancel_all e NetworkError). Qed.


Local Abbreviation all_ids c :=
  (Controller.pending_ids c ++ Controller.completed_ids c) (only parsing).

Lemma all_ids_split c :
  all_ids c ≡ₚ ids (Controller.aecp c) ++ (Controller.acmp_inflight c).*2.
Proof. unfold Controller.pending_ids, Controller.completed_ids. solve_Permutation. Qed.

Lemma take_inflight_Permutation id l k rest :
  Controller.take_inflight id l = Some (k, rest) -> l.*2 ≡ₚ k :: rest.*2.
Proof.
  revert k rest. induction l as [|[i k'] l IH]; intros k rest; simpl; [done |].
  case_decide.
  - by intros [= -> ->].
  - destruct (Controller.take_inflight id l) as [[k'' rest']|]; [| done].
    intros [= -> <-]. cbn. rewrite (IH _ _ eq_refl). apply perm_swap.
Qed.

Lemma all_ids_acmp_finish id result c :
  all_ids (Controller.acmp_finish id result c) ≡ₚ all_ids c.
Proof.
  unfold Controller.acmp_finish.
  destruct (Controller.take_inflight id (Controller.acmp_inflight c))
    as [[k rest]|] eqn:Htake; [| done].
  rewrite !all_ids_split. cbn [Controller.aecp Controller.acmp_inflight
    Controller.set_aecp Controller.set_acmp_inflight].
  rewrite (take_inflight_Permutation _ _ _ _ Htake).
  cbn [completions complete]. rewrite fmap_app. cbn. solve_Permutation.
Qed.

Lemma all_ids_acmp_cancel_all s c :
  all_ids (Controller.acmp_cancel_all s c) ≡ₚ all_ids c.
Proof.
  rewrite !all_ids_split. cbn [Controller.aecp Controller.acmp_inflight
    Controller.acmp_cancel_all Controller.set_aecp Controller.set_acmp_inflight].
  cbn [completions complete]. rewrite fmap_app.
  assert (((fun p : Z * nat => (p.2, Failed s)) <$> Controller.acmp_inflight c).*1
          = (Controller.acmp_inflight c).*2) as ->.
  { induction (Controller.acmp_inflight c) as [|p l IH]; [done |]. cbn. f_equal. exact IH. }
  cbn. solve_Permutation.
Qed.

Lemma all_ids_set_aecp e c :
  ids e ≡ₚ ids (Controller.aecp c) ->
  all_ids (Controller.set_aecp e c) ≡ₚ all_ids c.
Proof.
  intros He. rewrite !all_ids_split.
  cbn [Controller.aecp Controller.acmp_inflight Controller.set_aecp]. by rewrite He.
Qed.

Lemma all_ids_invoke m target handler c :
  all_ids (Controller.invoke m target handler c).2 ≡ₚ
  length (Controller.closures c) :: all_ids c.
Proof.
  unfold Controller.invoke, Controller.facade_body. cbn [snd].
  destruct (Controller.aecp_kind (Facade.method_protocol m)) as [kind|].
  - rewrite !all_ids_split.
    cbn [Controller.aecp Controller.acmp_inflight Controller.set_aecp].
    rewrite ids_issue. cbn. done.
  - unfold Controller.acmp_issue. cbn [Controller.aecp Controller.acmp_inflight].
    destruct (transport_up (Controller.aecp c)).
    + rewrite !all_ids_split. cbn [Controller.aecp Controller.acmp_inflight].
      rewrite fmap_app. cbn. solve_Permutation.
    + rewrite !all_ids_split.
      cbn [Controller.aecp Controller.acmp_inflight Controller.set_aecp completions complete].
      rewrite fmap_app. cbn. solve_Permutation.
Qed.

Lemma closures_step c ev :
  Controller.closures (Controller.step c ev) =
  Controller.closures c ++ Controller.calls [ev].
Proof.
  destruct ev; cbn; rewrite ?app_nil_r; try done.
  - unfold Controller.facade_body.
    destruct (Controller.aecp_kind (Facade.method_protocol m)); cbn; [done |].
    unfold Controller.acmp_issue. cbn. by destruct (transport_up (Controller.aecp c)).
  - unfold Controller.acmp_finish. by destruct (Controller.take_inflight _ _) as [[? ?]|].
  - unfold Controller.acmp_finish. by destruct (Controller.take_inflight _ _) as [[? ?]|].
  - unfold Controller.acmp_finish. by destruct (Controller.take_inflight _ _) as [[? ?]|].
Qed.

Lemma all_ids_step c ev :
  all_ids (Controller.step c ev) ≡ₚ
  match ev with
  | Controller.Invoke _ _ _ => length (Controller.closures c) :: all_ids c
  | _ => all_ids c
  end.
Proof.
  destruct ev; cbn [Controller.step].
  - apply all_ids_invoke.
  - apply all_ids_set_aecp, ids_on_response.
  - apply all_ids_set_aecp, ids_on_malformed_response.
  - apply all_ids_set_aecp, ids_on_timeout.
  - apply all_ids_acmp_finish.
  - apply all_ids_acmp_finish.
  - apply all_ids_acmp_finish.
  - by apply all_ids_set_aecp.
  - apply all_ids_set_aecp, ids_on_entity_offline.
  - rewrite all_ids_set_aecp by apply ids_on_transport_error. apply all_ids_acmp_cancel_all.
  - rewrite all_ids_set_aecp by apply ids_cancel_all. apply all_ids_acmp_cancel_all.
Qed.

(** Every closure created so far is pending or completed, exactly once. *)
Lemma conserved_step c ev :
  all_ids c ≡ₚ seq 0 (length (Controller.closures c)) ->
  all_ids (Controller.step c ev) ≡ₚ seq 0 (length (Controller.closures (Controller.step c ev))).
Proof.
  intros Hc. rewrite all_ids_step, closures_step, length_app.
  destruct ev; cbn [Controller.calls omap length]; rewrite ?Nat.add_0_r; try done.
  cbn. rewrite Nat.add_1_r, seq_S, Hc. cbn. solve_Permutation.
Qed.

Lemma conserved_run trace :
  forall c, all_ids c ≡ₚ seq 0 (length (Controller.closures c)) ->
  all_ids (Controller.run trace c) ≡ₚ
    seq 0 (length (Controller.closures (Controller.run trace c))).
Proof.
  induction trace as [|ev trace IH]; intros c Hc; [done |].
  cbn. by apply IH, conserved_step.
Qed.

Lemma closures_run trace :
  forall c, Controller.closures (Controller.run trace c) =
            Controller.closures c ++ Controller.calls trace.
Proof.
  induction trace as [|ev trace IH]; intros c.
  - cbn. by rewrite app_nil_r.
  - cbn [Controller.run fold_left]. fold (Controller.run trace (Controller.step c ev)).
    rewrite IH, closures_step, <- app_assoc. f_equal.
    unfold Controller.calls. cbn. by destruct ev.
Qed.

Lemma pending_ids_after_cancel c s s' :
  Controller.pending_ids
    (Controller.set_aecp (cancel_all s (Controller.aecp (Controller.acmp_cancel_all s' c)))
       (Controller.acmp_cancel_all s' c)) = [].
Proof.
  unfold Controller.pending_ids.
  cbn [Controller.aecp Controller.acmp_inflight Controller.set_aecp
       Controller.acmp_cancel_all Controller.set_acmp_inflight].
  by rewrite aecp_pending_cancel_all.
Qed.

End ControllerConservation.

Lemma library_status_is_library_code en s :
  Controller.enum_of (Controller.library_status en s) = en /\
  CommandStatus_origin (Controller.library_status en s) = LibraryCode.
Proof. by destruct en, s. Qed.

Lemma completed_closure_exists (c : Controller.t) k o :
  Controller.pending_ids c ++ Controller.completed_ids c ≡ₚ
    seq 0 (length (Controller.closures c)) ->
  (k, o) ∈ Engine.completions (Controller.aecp c) ->
  is_Some (Controller.closures c !! k).
Proof.
  intros Hc Hin. apply lookup_lt_is_Some.
  assert (k ∈ seq 0 (length (Controller.closures c))) as Hk.
  { rewrite <- Hc. apply elem_of_app. right.
    unfold Controller.completed_ids. apply list_elem_of_fmap. by exists (k, o). }
  apply elem_of_seq in Hk. lia.
Qed.


